(** * solana-auto-buy: the randomized multi-wallet buy scheduler of [src/autoBuy.ts]

    A shallow embedding of the TypeScript program and the proofs of the
    properties its specification states about it.

    - [Num]: JavaScript numbers, as IEEE 754 binary64 values
      ([spec_float] at precision 53, exponent bound 1024), with the
      operators the program uses: [+ - * /], [<], [Math.min],
      [Math.floor], [Math.round].
    - [Proc]: async functions as trees of effects; an [Await] node is a
      suspension point of the async function, a [Do] node a synchronous
      effect.
    - the program itself: [capBuyAmount], [performBuy], [runAutoBuy],
      [displayWalletBalances], [initRaydium], [main].
    - the event loop that runs them ([Runtime], [step], [run]):
      promises in flight, timers set by [setTimeout], the console.
    - [Sample]: a small world to run the program in. *)

From stdpp Require Import base strings gmap.
From Stdlib Require Import ZArith Lia Bool List.
From Stdlib Require Import Floats.SpecFloat.
Import ListNotations.

Local Open Scope Z_scope.

(** ** JavaScript numbers *)

Module Num.

Definition prec : Z := 53.
Definition emax : Z := 1024.

(** A JavaScript [number]. *)
Abbreviation number := spec_float.

Definition add : number -> number -> number := SFadd prec emax.
Definition sub : number -> number -> number := SFsub prec emax.
Definition mul : number -> number -> number := SFmul prec emax.
Definition div : number -> number -> number := SFdiv prec emax.
Definition ltb : number -> number -> bool := SFltb.
Definition leb : number -> number -> bool := SFleb.
Definition eqb : number -> number -> bool := SFeqb.

(** The number an integer literal or an integer read from JSON denotes:
    the integer, rounded to the nearest binary64 value. *)
Definition of_Z (z : Z) : number := binary_normalize prec emax z 0 false.

(** The number a decimal literal [n/d] denotes (both exactly
    representable): the correctly rounded quotient. *)
Definition dec (n d : Z) : number := div (of_Z n) (of_Z d).

Definition zero : number := S754_zero false.
Definition neg_zero : number := S754_zero true.
Definition nan : number := S754_nan.

Definition is_nan (x : number) : bool :=
  match x with S754_nan => true | _ => false end.

(** The mathematical integer an integral number holds. *)
Definition to_Z (x : number) : option Z :=
  match x with
  | S754_zero _ => Some 0
  | S754_finite s m e =>
      if 0 <=? e then Some (cond_Zopp s (Z.shiftl (Zpos m) e))
      else if Z.shiftl (Z.shiftr (Zpos m) (- e)) (- e) =? Zpos m
           then Some (cond_Zopp s (Z.shiftr (Zpos m) (- e)))
           else None
  | _ => None
  end.

(** [Math.min(a, b)]: NaN if either is NaN, [-0] below [+0]. *)
Definition Math_min (a b : number) : number :=
  if is_nan a || is_nan b then nan
  else match a, b with
       | S754_zero false, S754_zero true => neg_zero
       | _, _ => if ltb b a then b else a
       end.

(** [Math.floor(x)]: the largest integral number not above [x]. *)
Definition Math_floor (x : number) : number :=
  match x with
  | S754_finite s m e =>
      if 0 <=? e then x
      else of_Z (Z.shiftr (cond_Zopp s (Zpos m)) (- e))
  | _ => x
  end.

(** [Math.round(x)]: the integral number nearest to [x], ties towards
    [+Infinity]; [-0] for [-0.5 <= x < 0]. *)
Definition Math_round (x : number) : number :=
  match x with
  | S754_finite s m e =>
      if 0 <=? e then x
      else
        let n := Z.shiftr (2 * cond_Zopp s (Zpos m) + Z.shiftl 1 (- e)) (- e + 1) in
        if n =? 0 then S754_zero s else of_Z n
  | _ => x
  end.


(** The least exponent of a binary64 value. *)
Definition emin : Z := -1074.

(** What [Math.random()] returns: a binary64 value in [0, 1). *)
Definition unit_interval (r : number) : Prop :=
  valid_binary prec emax r = true /\ leb zero r = true /\ ltb r (of_Z 1) = true.



(** The rank of a number in the order: its class, then exponent, then
    mantissa, the last two mirrored below zero. *)
Definition rank (x : spec_float) : Z * Z * Z :=
  match x with
  | S754_zero _ => (0, 0, 0)
  | S754_infinity false => (2, 0, 0)
  | S754_infinity true => (-2, 0, 0)
  | S754_nan => (3, 0, 0)
  | S754_finite false m e => (1, e, Zpos m)
  | S754_finite true m e => (-1, - e, - Zpos m)
  end.

Definition rank_le (a b : Z * Z * Z) : Prop :=
  let '(c1, e1, m1) := a in
  let '(c2, e2, m2) := b in
  c1 < c2 \/ (c1 = c2 /\ (e1 < e2 \/ (e1 = e2 /\ m1 <= m2))).

(** The mantissa [m] shifted right by [k] bits and rounded to nearest,
    ties to even. *)
Definition rnd (m k : Z) : Z :=
  if k <=? 0 then m
  else round_nearest_even (m / 2 ^ k)
         (loc_of_shr_record
            {| shr_m := m / 2 ^ k;
               shr_r := Z.odd (m / 2 ^ (k - 1));
               shr_s := negb (m mod 2 ^ (k - 1) =? 0) |}).

(** A mantissa of at most 53 bits, or [2^53], at an exponent, as a number. *)
Definition canon (s : bool) (m f : Z) : number :=
  if m =? 0 then S754_zero s
  else if m =? 2 ^ 53
       then if f + 1 <=? emax - prec then S754_finite s (2 ^ 52) (f + 1) else S754_infinity s
       else if f <=? emax - prec then S754_finite s (Z.to_pos m) f else S754_infinity s.


End Num.

Abbreviation number := spec_float.

Arguments Num.add : simpl never.
Arguments Num.sub : simpl never.
Arguments Num.mul : simpl never.
Arguments Num.div : simpl never.
Arguments Num.ltb : simpl never.
Arguments Num.leb : simpl never.
Arguments Num.eqb : simpl never.
Arguments Num.of_Z : simpl never.
Arguments Num.dec : simpl never.
Arguments Num.Math_min : simpl never.
Arguments Num.Math_floor : simpl never.
Arguments Num.Math_round : simpl never.

Declare Scope num_scope.
Delimit Scope num_scope with num.
Infix "+" := Num.add : num_scope.
Infix "-" := Num.sub : num_scope.
Infix "*" := Num.mul : num_scope.
Infix "/" := Num.div : num_scope.
Infix "<?" := Num.ltb : num_scope.
Infix "<=?" := Num.leb : num_scope.

(** The order of numbers as propositions; both are false on NaN. *)
Definition num_lt (x y : number) : Prop := Num.ltb x y = true.
Definition num_le (x y : number) : Prop := Num.leb x y = true.
Infix "<" := num_lt : num_scope.
Infix "<=" := num_le : num_scope.

(** ** Data *)

(** A public key, in its base58 form ([toBase58]). *)
Abbreviation PublicKey := string.

Record Wallet := {
  publicKey : PublicKey;
  secretKey : list Byte.byte
}.

(** What the program throws or sees thrown. *)
Inductive Err :=
| Error (message : string)      (* [new Error(message)], made by this program *)
| TypeError (message : string)  (* a property read on [undefined] *)
| Rejected (reason : string).   (* a rejection or exception out of the SDK or the RPC node *)

(** Why a call into the SDK or to the RPC node failed. *)
Abbreviation Reason := string.

(** An object of the SDK whose fields the program never reads. *)
Inductive SdkObject := sdk_object (ref : N).

(** The routing-service handle ([Raydium]). *)
Inductive Raydium := raydium_instance (ref : N).

Inductive Keypair := keypair (secret : list Byte.byte).

Record MintInfo := {
  decimals : number;
  programId : PublicKey;
  feeConfig : option SdkObject
}.

(** The properties [new Token] is given. *)
Record TokenProps := {
  mint : string;
  token_decimals : number;
  isToken2022 : bool
}.

(** The result of [getAllRoute]; [directPath] holds the ids of the pools
    that connect the pair directly. *)
Record Routes := {
  directPath : list PublicKey;
  routes_rest : SdkObject
}.

(** The result of [fetchSwapRoutesData]. *)
Record RouteData := {
  mintInfos : gmap string MintInfo;
  ammPoolsRpcInfo : SdkObject;
  ammSimulateCache : gmap string SdkObject;
  clmmPoolsRpcInfo : SdkObject;
  computeClmmPoolInfo : gmap string SdkObject;
  computePoolTickData : SdkObject;
  computeCpmmData : gmap string SdkObject;
  routePathDict : SdkObject
}.

(** The token built by [toApiV3Token] for the output mint. *)
Record ApiV3Token := {
  address : string;
  token_programId : string;
  output_decimals : number;
  extensions_feeConfig : option SdkObject
}.

Inductive RouteType := route_amm | route_route.

(** A route candidate: an element of the list that
    [getAllRouteComputeAmountOut] returns, amounts in base units. *)
Record RouteCandidate := {
  amountIn : Z;
  amountOut : Z;
  routeType : RouteType;
  poolInfoList : list SdkObject
}.

Record ComputeAmountOutArgs := {
  inputTokenAmount : SdkObject;
  arg_directPath : list (option SdkObject);
  arg_routePathDict : SdkObject;
  simulateCache : gmap string SdkObject;
  tickCache : SdkObject;
  arg_mintInfos : gmap string MintInfo;
  outputToken : ApiV3Token;
  chainTime : number;
  slippage : number;
  epochInfo : SdkObject
}.

Record SwapArgs := {
  routeProgram : PublicKey;
  txVersion : N;
  swapInfo : RouteCandidate;
  swapPoolKeys : SdkObject;
  associatedOnly : bool;
  checkCreateATAOwner : bool;
  units : Z;
  microLamports : Z
}.

(** What goes to the console, before formatting. *)
Inductive LogEntry :=
| Log (text : string)
| LogBalance (wallet : PublicKey) (sol : number)
| LogStarting (wallets : nat)
| WarnSkipping (wallet : PublicKey) (min_buy : number)
| LogWillBuy (wallet : PublicKey) (sol : number) (delay : number)
| LogSwapping (wallet : PublicKey) (sol : number) (output_mint : PublicKey)
| LogBestRoute (amount_in amount_out : Z) (type : RouteType)
| LogSwapSuccessful (wallet : PublicKey)
| LogTx (txId : string)
| ErrorPerformBuy (wallet : PublicKey) (error : Err)
| ErrorFatal (error : Err).

(** The closure handed to [setTimeout]:
    [async () => { await performBuy(wallet, finalAmountSOL) }]. *)
Inductive Callback := BuyLater (wallet : Wallet) (finalAmountSOL : number).

(** ** Effects *)

(** Calls that return without suspending the caller. *)
Inductive SyncCall :=
| Math_random
| Date_now
| ReadRaydium                                  (* the global [raydium] *)
| WriteRaydium (r : Raydium)
| Console (entry : LogEntry)
| SetTimeout (callback : Callback) (delay : number)
| SetLoggerLevel (module_name : string)
| KeypairFromSecretKey (secret : list Byte.byte)
| NewToken (props : TokenProps)                 (* [new Token(props)] *)
| NewTokenAmount (token : SdkObject) (amount : number)
                                               (* [new TokenAmount(token, amount.toString())] *)
| ChainTimeData (sdk : Raydium)                (* [raydium.chainTimeData?.chainTime] *)
| GetAllRoute (sdk : Raydium) (inputMint outputMint : PublicKey) (poolData : SdkObject)
| GetAllRouteComputeAmountOut (sdk : Raydium) (args : ComputeAmountOutArgs).

Definition sresp (c : SyncCall) : Type :=
  match c with
  | Math_random => number
  | Date_now => number
  | ReadRaydium => option Raydium
  | WriteRaydium _ => unit
  | Console _ => unit
  | SetTimeout _ _ => unit
  | SetLoggerLevel _ => unit
  | KeypairFromSecretKey _ => Reason + Keypair
  | NewToken _ => Reason + SdkObject
  | NewTokenAmount _ _ => Reason + SdkObject
  | ChainTimeData _ => option number
  | GetAllRoute _ _ _ _ => Reason + Routes
  | GetAllRouteComputeAmountOut _ _ => Reason + list RouteCandidate
  end.

(** Calls that return a promise the caller awaits. *)
Inductive AsyncCall :=
| GetBalance (wallet : PublicKey)
| RaydiumLoad (owner : Keypair) (cluster : string)
| FetchRoutePoolBasicInfo (sdk : Raydium)
| FetchSwapRoutesData (sdk : Raydium) (routes : Routes) (inputMint outputMint : PublicKey)
| GetEpochInfo (sdk : Raydium)
| ComputePoolToPoolKeys (sdk : Raydium) (pools : list SdkObject) (ammRpcData clmmRpcData : SdkObject)
| Swap (sdk : Raydium) (args : SwapArgs)
| Execute (tx : SdkObject) (sequentially : bool).

Definition aresp (c : AsyncCall) : Type :=
  match c with
  | GetBalance _ => number
  | RaydiumLoad _ _ => Raydium
  | FetchRoutePoolBasicInfo _ => SdkObject
  | FetchSwapRoutesData _ _ _ _ => RouteData
  | GetEpochInfo _ => SdkObject
  | ComputePoolToPoolKeys _ _ _ _ => SdkObject
  | Swap _ _ => SdkObject
  | Execute _ _ => list string
  end.

(** An async function body: a tree of effects.  [Await] is a suspension
    point: the promise settles with a rejection or a value.  [Exit] is
    [process.exit], which does not return. *)
Inductive Proc (R : Type) : Type :=
| Ret (r : R)
| Throw (e : Err)
| Exit (code : Z)
| Do (c : SyncCall) (k : sresp c -> Proc R)
| Await (c : AsyncCall) (k : Reason + aresp c -> Proc R).

Arguments Ret {R} r.
Arguments Throw {R} e.
Arguments Exit {R} code.
Arguments Do {R} c k.
Arguments Await {R} c k.

Fixpoint bind {A B} (p : Proc A) (f : A -> Proc B) : Proc B :=
  match p with
  | Ret a => f a
  | Throw e => Throw e
  | Exit code => Exit code
  | Do c k => Do c (fun r => bind (k r) f)
  | Await c k => Await c (fun r => bind (k r) f)
  end.

(** [try { p } catch (e) { h e }] *)
Fixpoint try_catch {A} (p : Proc A) (h : Err -> Proc A) : Proc A :=
  match p with
  | Ret a => Ret a
  | Throw e => h e
  | Exit code => Exit code
  | Do c k => Do c (fun r => try_catch (k r) h)
  | Await c k => Await c (fun r => try_catch (k r) h)
  end.

Declare Scope proc_scope.
Delimit Scope proc_scope with proc.
Notation "'let*' x ':=' p 'in' q" := (bind p (fun x => q))
  (at level 10, x name, p at level 100, q at level 200) : proc_scope.
Notation "p ';;' q" := (bind p (fun _ => q))
  (at level 100, q at level 200, right associativity) : proc_scope.

(** A synchronous call, for its result. *)
Definition call (c : SyncCall) : Proc (sresp c) := Do c Ret.

(** [await promise]: the value, or the rejection rethrown. *)
Definition await (c : AsyncCall) : Proc (aresp c) :=
  Await c (fun r => match r with inl reason => Throw (Rejected reason) | inr v => Ret v end).

(** A result that is a value or an exception, unwrapped. *)
Definition unwrap {A} (r : Reason + A) : Proc A :=
  match r with inl reason => Throw (Rejected reason) | inr v => Ret v end.

Definition console (entry : LogEntry) : Proc unit := call (Console entry).

(** [for (const x of l) body] *)
Fixpoint for_of {A} (l : list A) (body : A -> Proc unit) : Proc unit :=
  match l with
  | [] => Ret tt
  | x :: l' => bind (body x) (fun _ => for_of l' body)
  end.

(** ** Behaviours of one async function *)

(** The result of a call, whatever its type. *)
Inductive Value :=
| VUnit
| VNumber (n : number)
| VOptNumber (o : option number)
| VHandle (o : option Raydium)
| VRaydium (r : Raydium)
| VKeypair (k : Keypair)
| VObject (o : SdkObject)
| VRoutes (r : Routes)
| VRouteData (d : RouteData)
| VCandidates (l : list RouteCandidate)
| VTxIds (l : list string)
| VRejected (reason : Reason).

Definition result_value {A} (f : A -> Value) (r : Reason + A) : Value :=
  match r with inl reason => VRejected reason | inr a => f a end.

Definition sync_value (c : SyncCall) : sresp c -> Value :=
  match c with
  | Math_random => VNumber
  | Date_now => VNumber
  | ReadRaydium => VHandle
  | WriteRaydium _ => fun _ => VUnit
  | Console _ => fun _ => VUnit
  | SetTimeout _ _ => fun _ => VUnit
  | SetLoggerLevel _ => fun _ => VUnit
  | KeypairFromSecretKey _ => result_value VKeypair
  | NewToken _ => result_value VObject
  | NewTokenAmount _ _ => result_value VObject
  | ChainTimeData _ => VOptNumber
  | GetAllRoute _ _ _ _ => result_value VRoutes
  | GetAllRouteComputeAmountOut _ _ => result_value VCandidates
  end.

Definition async_value (c : AsyncCall) : Reason + aresp c -> Value :=
  match c with
  | GetBalance _ => result_value VNumber
  | RaydiumLoad _ _ => result_value VRaydium
  | FetchRoutePoolBasicInfo _ => result_value VObject
  | FetchSwapRoutesData _ _ _ _ => result_value VRouteData
  | GetEpochInfo _ => result_value VObject
  | ComputePoolToPoolKeys _ _ _ _ => result_value VObject
  | Swap _ _ => result_value VObject
  | Execute _ _ => result_value VTxIds
  end.

(** What can be observed of a run. *)
Inductive Event :=
| Did (c : SyncCall) (v : Value)       (* a synchronous call and its result *)
| Awaited (c : AsyncCall) (v : Value)  (* a promise settled and its awaiter resumed *)
| Issued (c : AsyncCall)               (* a promise created, its awaiter suspended *)
| Fired (cb : Callback).               (* a timer callback started *)

Inductive Outcome (R : Type) :=
| Returned (r : R)
| Threw (e : Err)
| Exited (code : Z).

Arguments Returned {R} r.
Arguments Threw {R} e.
Arguments Exited {R} code.

(** [runs p evs o]: the function body [p] can make the calls [evs], with
    the results recorded there, and end with [o].  Every result the
    callee's type allows is a possible one. *)
Fixpoint runs {R} (p : Proc R) (evs : list Event) (o : Outcome R) : Prop :=
  match p with
  | Ret r => evs = [] /\ o = Returned r
  | Throw e => evs = [] /\ o = Threw e
  | Exit code => evs = [] /\ o = Exited code
  | Do c k => exists r evs', evs = Did c (sync_value c r) :: evs' /\ runs (k r) evs' o
  | Await c k => exists r evs', evs = Awaited c (async_value c r) :: evs' /\ runs (k r) evs' o
  end.

(** [a || b] on values that are an object or [undefined]. *)
Definition or_else {A} (a b : option A) : option A :=
  match a with Some _ => a | None => b end.

(** ** The program *)

Definition LAMPORTS_PER_SOL : number := Num.of_Z 1000000000.
Definition NATIVE_MINT : PublicKey := "So11111111111111111111111111111111111111112".
Definition TOKEN_2022_PROGRAM_ID : PublicKey := "TokenzQdBNbLqP5VEhdkAS6EPFLC1PHnBqCXEpPxuEb".
Definition Router : PublicKey := "routeUGWgWzqBWFcrCfv8tritsqukccJPu3q5GPP3xS".
Definition TxVersion_V0 : N := 0%N.

(** A small buffer for transaction fees: the literal [0.005]. *)
Definition FEE_BUFFER_SOL : number := Num.dec 5 1000.

Local Open Scope proc_scope.

Section Program.

(** The configuration read from the environment. *)
Variable CONTRACT_ADDRESS : PublicKey.
Variable WALLETS : list Wallet.
Variable MIN_DELAY MAX_DELAY : number.
Variable MIN_BUY_AMOUNT_SOL MAX_BUY_AMOUNT_SOL : number.

Definition initRaydium : Proc unit :=
  if Nat.eqb (length WALLETS) 0
  then Throw (Error "No wallets available for initialization.")
  else
    match WALLETS !! 0%nat with
    | None => Throw (TypeError "Cannot read properties of undefined (reading 'secretKey')")
    | Some wallet0 =>
        let* owner := bind (call (KeypairFromSecretKey (secretKey wallet0))) unwrap in
        call (SetLoggerLevel "Raydium_tradeV2") ;;
        let* loaded := await (RaydiumLoad owner "devnet") in
        call (WriteRaydium loaded) ;;
        console (Log "Raydium SDK initialized successfully.")
    end.

Definition displayWalletBalances (wallets : list Wallet) : Proc unit :=
  console (Log "--- Current Wallet Balances ---") ;;
  for_of wallets (fun wallet =>
    let* lamports := await (GetBalance (publicKey wallet)) in
    console (LogBalance (publicKey wallet) (lamports / LAMPORTS_PER_SOL)%num)) ;;
  console (Log "-------------------------------").

Definition capBuyAmount (wallet : Wallet) (desiredAmountSOL : number) : Proc number :=
  let* balanceLamports := await (GetBalance (publicKey wallet)) in
  let balanceSOL := (balanceLamports / LAMPORTS_PER_SOL)%num in
  let maxAffordable := (balanceSOL - FEE_BUFFER_SOL)%num in
  if (maxAffordable <? MIN_BUY_AMOUNT_SOL)%num
  then Ret Num.zero
  else Ret (Num.Math_min desiredAmountSOL maxAffordable).

(** The [try] block of [performBuy]. *)
Definition performBuy_try (raydium : Raydium) (wallet : Wallet) (finalBuySOL : number)
  : Proc unit :=
  let amountLamports := Num.Math_round (finalBuySOL * LAMPORTS_PER_SOL)%num in
  let inputMint := NATIVE_MINT in
  let outputMint := CONTRACT_ADDRESS in
  console (LogSwapping (publicKey wallet) finalBuySOL outputMint) ;;
  let* poolData := await (FetchRoutePoolBasicInfo raydium) in
  let* routes := bind (call (GetAllRoute raydium inputMint outputMint poolData)) unwrap in
  let* routeData := await (FetchSwapRoutesData raydium routes inputMint outputMint) in
  let* inputToken :=
    bind (call (NewToken
      {| mint := inputMint;
         token_decimals :=
           match mintInfos routeData !! inputMint with
           | Some info => decimals info
           | None => Num.of_Z 9
           end;
         isToken2022 :=
           match mintInfos routeData !! inputMint with
           | Some info => String.eqb (programId info) TOKEN_2022_PROGRAM_ID
           | None => false
           end |})) unwrap in
  let* inputAmount := bind (call (NewTokenAmount inputToken amountLamports)) unwrap in
  let direct :=
    map (fun id =>
           or_else (ammSimulateCache routeData !! id)
             (or_else (computeClmmPoolInfo routeData !! id)
                (computeCpmmData routeData !! id)))
        (directPath routes) in
  let* outInfo :=
    match mintInfos routeData !! outputMint with
    | Some info => Ret info
    | None => Throw (TypeError "Cannot read properties of undefined (reading 'programId')")
    end in
  let* chain := call (ChainTimeData raydium) in
  let* time :=
    match chain with
    | Some t => Ret t
    | None => let* ms := call Date_now in Ret (ms / Num.of_Z 1000)%num
    end in
  let* epoch := await (GetEpochInfo raydium) in
  let* swapRoutes :=
    bind (call (GetAllRouteComputeAmountOut raydium
      {| inputTokenAmount := inputAmount;
         arg_directPath := direct;
         arg_routePathDict := routePathDict routeData;
         simulateCache := ammSimulateCache routeData;
         tickCache := computePoolTickData routeData;
         arg_mintInfos := mintInfos routeData;
         outputToken :=
           {| address := outputMint;
              token_programId := programId outInfo;
              output_decimals := decimals outInfo;
              extensions_feeConfig := feeConfig outInfo |};
         chainTime := Num.Math_floor time;
         slippage := Num.dec 5 1000;
         epochInfo := epoch |})) unwrap in
  if Nat.eqb (length swapRoutes) 0
  then Throw (Error "No swap routes found for this pair.")
  else
    (* Best route is the first *)
    match swapRoutes !! 0%nat with
    | None => Throw (TypeError "Cannot read properties of undefined (reading 'amountIn')")
    | Some bestRoute =>
        console (LogBestRoute (amountIn bestRoute) (amountOut bestRoute) (routeType bestRoute)) ;;
        let* poolKeys :=
          await (ComputePoolToPoolKeys raydium (poolInfoList bestRoute)
                   (ammPoolsRpcInfo routeData) (clmmPoolsRpcInfo routeData)) in
        let* built :=
          await (Swap raydium
            {| routeProgram := Router;
               txVersion := TxVersion_V0;
               swapInfo := bestRoute;
               swapPoolKeys := poolKeys;
               associatedOnly := true;
               checkCreateATAOwner := true;
               units := 600000;
               microLamports := 1000 |}) in
        let* txIds := await (Execute built true) in
        console (LogSwapSuccessful (publicKey wallet)) ;;
        for_of txIds (fun txId => console (LogTx txId))
    end.

Definition performBuy (wallet : Wallet) (finalBuySOL : number) : Proc unit :=
  let* raydium := call ReadRaydium in
  match raydium with
  | None => Throw (Error "Raydium SDK is not initialized.")
  | Some raydium =>
      try_catch (performBuy_try raydium wallet finalBuySOL)
        (fun error => console (ErrorPerformBuy (publicKey wallet) error))
  end.

(** The delay [runAutoBuy] draws from the random number [r]. *)
Definition randomDelay (r : number) : number :=
  (Num.Math_floor (r * (MAX_DELAY - MIN_DELAY + Num.of_Z 1)) + MIN_DELAY)%num.

Definition runAutoBuy : Proc unit :=
  console (LogStarting (length WALLETS)) ;;
  for_of WALLETS (fun wallet =>
    (* 1) Pick random buy amount *)
    let* r := call Math_random in
    let desiredAmountSOL :=
      (r * (MAX_BUY_AMOUNT_SOL - MIN_BUY_AMOUNT_SOL) + MIN_BUY_AMOUNT_SOL)%num in
    (* 2) Cap the buy amount based on the wallet's balance *)
    let* finalAmountSOL := capBuyAmount wallet desiredAmountSOL in
    if (finalAmountSOL <? MIN_BUY_AMOUNT_SOL)%num
    then console (WarnSkipping (publicKey wallet) MIN_BUY_AMOUNT_SOL)
    else
      (* 3) Random delay *)
      let* r' := call Math_random in
      console (LogWillBuy (publicKey wallet) finalAmountSOL (randomDelay r')) ;;
      (* 4) Perform the buy after the delay *)
      call (SetTimeout (BuyLater wallet finalAmountSOL) (randomDelay r'))).

(** The body of a timer callback. *)
Definition run_callback (cb : Callback) : Proc unit :=
  match cb with
  | BuyLater wallet finalAmountSOL => performBuy wallet finalAmountSOL
  end.

(** The entrypoint. *)
Definition main : Proc unit :=
  try_catch
    (console (Log "Fetching initial balances...") ;;
     displayWalletBalances WALLETS ;;
     console (Log "Initializing Raydium SDK...") ;;
     initRaydium ;;
     console (Log "Starting the auto-buy process...") ;;
     runAutoBuy ;;
     console (Log "Fetching final balances...") ;;
     displayWalletBalances WALLETS)
    (fun err => console (ErrorFatal err) ;; Exit 1).

(** ** The event loop *)

(** A function suspended at an [await]. *)
Record Task := {
  awaiting : AsyncCall;
  resume : Reason + aresp awaiting -> Proc unit
}.

Record Timer := {
  due : Z;
  callback : Callback
}.

Record Runtime := {
  now : Z;                      (* the clock, in ms *)
  raydium : option Raydium;     (* the global [raydium] *)
  trace : list Event;           (* what happened so far, oldest first *)
  timers : list Timer;          (* set by [setTimeout], not fired yet *)
  inflight : list Task;         (* suspended functions and the promises they await *)
  unhandled : list Err;         (* rejections no one caught *)
  exit_code : option Z          (* set by [process.exit] *)
}.

(** The world outside the program: what each call returns, given what
    happened so far and the time. *)
Record Env := {
  reply_sync : list Event -> Z -> forall c : SyncCall, sresp c;
  reply_async : list Event -> Z -> forall c : AsyncCall, Reason + aresp c
}.

Definition initial : Runtime :=
  {| now := 0; raydium := None; trace := []; timers := []; inflight := [];
     unhandled := []; exit_code := None |}.

Definition record (ev : Event) (rt : Runtime) : Runtime :=
  {| now := now rt; raydium := raydium rt; trace := trace rt ++ [ev];
     timers := timers rt; inflight := inflight rt;
     unhandled := unhandled rt; exit_code := exit_code rt |}.

(** The delay [setTimeout] uses: an integer of ms in [1, 2^31 - 1], else 1. *)
Definition timeout_ms (delay : number) : Z :=
  match Num.to_Z (Num.Math_floor delay) with
  | Some z => if (1 <=? z) && (z <=? 2147483647) then z else 1
  | None => 1
  end.

(** The result of a synchronous call: the global is read from the
    runtime, the rest is the world's. *)
Definition answer (env : Env) (rt : Runtime) (c : SyncCall) : sresp c :=
  match c with
  | ReadRaydium => raydium rt
  | c' => reply_sync env (trace rt) (now rt) c'
  end.

(** What a synchronous call changes in the runtime. *)
Definition effect (c : SyncCall) (rt : Runtime) : Runtime :=
  match c with
  | WriteRaydium r =>
      {| now := now rt; raydium := Some r; trace := trace rt;
         timers := timers rt; inflight := inflight rt;
         unhandled := unhandled rt; exit_code := exit_code rt |}
  | SetTimeout cb delay =>
      {| now := now rt; raydium := raydium rt; trace := trace rt;
         timers := timers rt ++ [{| due := now rt + timeout_ms delay; callback := cb |}];
         inflight := inflight rt;
         unhandled := unhandled rt; exit_code := exit_code rt |}
  | _ => rt
  end.

(** Run a task until it suspends, ends, or exits the process. *)
Fixpoint run_sync (env : Env) (p : Proc unit) (rt : Runtime) : Runtime :=
  match p with
  | Ret _ => rt
  | Throw e =>
      {| now := now rt; raydium := raydium rt; trace := trace rt;
         timers := timers rt; inflight := inflight rt;
         unhandled := unhandled rt ++ [e]; exit_code := exit_code rt |}
  | Exit code =>
      {| now := now rt; raydium := raydium rt; trace := trace rt;
         timers := timers rt; inflight := inflight rt;
         unhandled := unhandled rt; exit_code := Some code |}
  | Do c k =>
      let r := answer env rt c in
      run_sync env (k r) (record (Did c (sync_value c r)) (effect c rt))
  | Await c k =>
      let rt' := record (Issued c) rt in
      {| now := now rt'; raydium := raydium rt'; trace := trace rt';
         timers := timers rt';
         inflight := inflight rt' ++ [{| awaiting := c; resume := k |}];
         unhandled := unhandled rt'; exit_code := exit_code rt' |}
  end.

(** What the loop does next: let time pass, fire a timer that is due, or
    settle a promise in flight. *)
Inductive Choice :=
| Tick (dt : Z)
| Fire (i : nat)
| Settle (i : nat).

Definition step (env : Env) (ch : Choice) (rt : Runtime) : option Runtime :=
  match exit_code rt with
  | Some _ => None
  | None =>
      match ch with
      | Tick dt =>
          if 0 <? dt
          then Some {| now := now rt + dt; raydium := raydium rt; trace := trace rt;
                       timers := timers rt; inflight := inflight rt;
                       unhandled := unhandled rt; exit_code := exit_code rt |}
          else None
      | Fire i =>
          match timers rt !! i with
          | Some t =>
              if due t <=? now rt
              then Some (run_sync env (run_callback (callback t))
                           {| now := now rt; raydium := raydium rt;
                              trace := trace rt ++ [Fired (callback t)];
                              timers := delete i (timers rt); inflight := inflight rt;
                              unhandled := unhandled rt; exit_code := exit_code rt |})
              else None
          | None => None
          end
      | Settle i =>
          match inflight rt !! i with
          | Some t =>
              let r := reply_async env (trace rt) (now rt) (awaiting t) in
              Some (run_sync env (resume t r)
                      {| now := now rt; raydium := raydium rt;
                         trace := trace rt ++ [Awaited (awaiting t) (async_value (awaiting t) r)];
                         timers := timers rt; inflight := delete i (inflight rt);
                         unhandled := unhandled rt; exit_code := exit_code rt |})
          | None => None
          end
      end
  end.

(** A schedule, run from a state. *)
Fixpoint run (env : Env) (chs : list Choice) (rt : Runtime) : option Runtime :=
  match chs with
  | [] => Some rt
  | ch :: chs' =>
      match step env ch rt with
      | Some rt' => run env chs' rt'
      | None => None
      end
  end.

(** The process starts by running [main] up to its first [await]. *)
Definition boot (env : Env) : Runtime := run_sync env main initial.

End Program.

(** ** Running one function against a world *)

(** [play env t p hist]: the run of [p] in which each call gets the
    world's reply, at time [t], after the events [hist]. *)
Fixpoint play (env : Env) (t : Z) {R} (p : Proc R) (hist : list Event)
  : list Event * Outcome R :=
  match p with
  | Ret r => ([], Returned r)
  | Throw e => ([], Threw e)
  | Exit code => ([], Exited code)
  | Do c k =>
      let r := reply_sync env hist t c in
      let ev := Did c (sync_value c r) in
      let rest := play env t (k r) (hist ++ [ev]) in
      (ev :: fst rest, snd rest)
  | Await c k =>
      let r := reply_async env hist t c in
      let ev := Awaited c (async_value c r) in
      let rest := play env t (k r) (hist ++ [ev]) in
      (ev :: fst rest, snd rest)
  end.

(** ** Stages of the process *)






(** ** Evaluation contexts *)

(** The rest of the caller around an awaited call: [K p] is the caller
    with [p] in the hole, and makes the calls of [p] first. *)
Record EvalCtx {A} (K : Proc A -> Proc unit) : Prop := {
  ctx_Do : forall c k, K (Do c k) = Do c (fun r => K (k r));
  ctx_Await : forall c k, K (Await c k) = Await c (fun r => K (k r))
}.

(** The function body that ends as [o] does, at once. *)
Definition leaf {A} (o : Outcome A) : Proc A :=
  match o with
  | Returned a => Ret a
  | Threw e => Throw e
  | Exited code => Exit code
  end.

(** The timers that the calls [evs], made at time [t], set. *)
Fixpoint scheduled (t : Z) (evs : list Event) : list Timer :=
  match evs with
  | [] => []
  | Did (SetTimeout cb delay) _ :: evs' =>
      {| due := t + timeout_ms delay; callback := cb |} :: scheduled t evs'
  | _ :: evs' => scheduled t evs'
  end.

(** The events of a run as the loop records them: a promise is issued
    before it settles. *)
Fixpoint with_issues (evs : list Event) : list Event :=
  match evs with
  | [] => []
  | Awaited c v :: evs' => Issued c :: Awaited c v :: with_issues evs'
  | ev :: evs' => ev :: with_issues evs'
  end.

(** The promises awaited in a run. *)
Fixpoint awaits (evs : list Event) : nat :=
  match evs with
  | [] => 0
  | Awaited _ _ :: evs' => S (awaits evs')
  | _ :: evs' => awaits evs'
  end.

(** ** Shapes of function bodies *)

(** [shape P T E p]: every synchronous call of [p] satisfies [P], [p]
    throws only if [T] and exits the process only if [E]. *)
Fixpoint shape (P : SyncCall -> Prop) (T E : Prop) {R} (p : Proc R) : Prop :=
  match p with
  | Ret _ => True
  | Throw _ => T
  | Exit _ => E
  | Do c k => P c /\ forall r, shape P T E (k r)
  | Await c k => forall r, shape P T E (k r)
  end.

(** The calls of a swap attempt: anything but an assignment to the
    global handle or a new timer. *)
Definition swap_call (c : SyncCall) : Prop :=
  match c with
  | ReadRaydium | WriteRaydium _ | SetTimeout _ _ => False
  | _ => True
  end.

(** The event is a call to the SDK that moves funds or prepares to. *)
Definition is_swap_step (ev : Event) : Prop :=
  match ev with
  | Awaited (ComputePoolToPoolKeys _ _ _ _) _ => True
  | Awaited (Swap _ _) _ => True
  | Awaited (Execute _ _) _ => True
  | _ => False
  end.

(** ** Reading a run *)

(** The lines of a balance report: for each wallet the query, settled
    with its balance in lamports, and the line logged, in SOL. *)
Fixpoint balance_lines (ws : list Wallet) (bs : list number) : list Event :=
  match ws, bs with
  | w :: ws', b :: bs' =>
      Awaited (GetBalance (publicKey w)) (VNumber b) ::
      Did (Console (LogBalance (publicKey w) (b / LAMPORTS_PER_SOL)%num)) VUnit ::
      balance_lines ws' bs'
  | _, _ => []
  end.

(** What [runAutoBuy] decided for a wallet: to skip it, or to buy
    [amount] SOL after [delay] ms. *)
Inductive Decision :=
| Skipped (wallet : PublicKey)
| Scheduled (wallet : Wallet) (amount delay : number).

Definition decision_wallet (d : Decision) : PublicKey :=
  match d with
  | Skipped w => w
  | Scheduled w _ _ => publicKey w
  end.

(** The decisions of a run, in order: a warning that a wallet is
    skipped, or a timer set for it. *)
Fixpoint decided (evs : list Event) : list Decision :=
  match evs with
  | [] => []
  | Did (Console (WarnSkipping w _)) _ :: evs' => Skipped w :: decided evs'
  | Did (SetTimeout (BuyLater w amount) delay) _ :: evs' =>
      Scheduled w amount delay :: decided evs'
  | _ :: evs' => decided evs'
  end.

(** The timers of the decisions made at time [t]: one for each wallet
    that is not skipped. *)
Fixpoint buys_pending (t : Z) (ds : list Decision) : list Timer :=
  match ds with
  | [] => []
  | Skipped _ :: ds' => buys_pending t ds'
  | Scheduled w amount delay :: ds' =>
      {| due := t + timeout_ms delay; callback := BuyLater w amount |} :: buys_pending t ds'
  end.

(** [alone env p rt]: the run of [p] from the state [rt] when nothing
    else is in flight and each promise it awaits settles before
    anything else happens: its events, its outcome, and the state when
    it ends. *)
Fixpoint alone (env : Env) {R} (p : Proc R) (rt : Runtime)
  : list Event * Outcome R * Runtime :=
  match p with
  | Ret r => ([], Returned r, rt)
  | Throw e => ([], Threw e, rt)
  | Exit code => ([], Exited code, rt)
  | Do c k =>
      let r := answer env rt c in
      let ev := Did c (sync_value c r) in
      let '(evs, o, rt1) := alone env (k r) (record ev (effect c rt)) in
      (ev :: evs, o, rt1)
  | Await c k =>
      let r := reply_async env (trace rt ++ [Issued c]) (now rt) c in
      let ev := Awaited c (async_value c r) in
      let '(evs, o, rt1) :=
        alone env (k r)
          {| now := now rt; raydium := raydium rt;
             trace := (trace rt ++ [Issued c]) ++ [ev];
             timers := timers rt; inflight := [];
             unhandled := unhandled rt; exit_code := None |} in
      (ev :: evs, o, rt1)
  end.

(** The calls to [execute] in a run; one call submits the transactions
    it was built with, one or more. *)
Fixpoint executions (evs : list Event) : nat :=
  match evs with
  | [] => 0
  | Awaited (Execute _ _) _ :: evs' => S (executions evs')
  | _ :: evs' => executions evs'
  end.


(** The calls of a run other than the lines it logs. *)
Fixpoint sdk_calls (evs : list Event) : list Event :=
  match evs with
  | [] => []
  | Did (Console _) _ :: evs' => sdk_calls evs'
  | ev :: evs' => ev :: sdk_calls evs'
  end.

(** Two function bodies that make the same calls and end the same way
    on the same results, but for what the lines they log say. *)
Inductive same_calls {R} : Proc R -> Proc R -> Prop :=
| same_Ret r : same_calls (Ret r) (Ret r)
| same_Throw e : same_calls (Throw e) (Throw e)
| same_Exit code : same_calls (Exit code) (Exit code)
| same_Log entry entry' k k' :
    (forall r r', same_calls (k r) (k' r')) ->
    same_calls (Do (Console entry) k) (Do (Console entry') k')
| same_Do c k k' :
    (forall r, same_calls (k r) (k' r)) -> same_calls (Do c k) (Do c k')
| same_Await c k k' :
    (forall r, same_calls (k r) (k' r)) -> same_calls (Await c k) (Await c k').

(** ** Counting timers *)

Definition timer_cost (c : SyncCall) : nat :=
  match c with
  | SetTimeout _ _ => 1
  | _ => 0
  end.

(** [sets_at_most n p]: [p] sets at most [n] timers. *)
Fixpoint sets_at_most (n : nat) {R} (p : Proc R) : Prop :=
  match p with
  | Do c k => (timer_cost c <= n)%nat /\ forall r, sets_at_most (n - timer_cost c) (k r)
  | Await c k => forall r, sets_at_most n (k r)
  | _ => True
  end.

(** The timers set, and the timer callbacks started, in a trace. *)
Fixpoint timers_set (evs : list Event) : nat :=
  match evs with
  | [] => 0
  | Did c _ :: evs' => timer_cost c + timers_set evs'
  | _ :: evs' => timers_set evs'
  end.

Fixpoint timers_fired (evs : list Event) : nat :=
  match evs with
  | [] => 0
  | Fired _ :: evs' => S (timers_fired evs')
  | _ :: evs' => timers_fired evs'
  end.

(** Every timer set is pending or has fired, and the functions in
    flight can set, [bs] each, no more timers than the [limit] less the
    ones set so far. *)
Record budget_inv (limit : nat) (rt : Runtime) : Prop := {
  inv_pending :
    (timers_fired (trace rt) + length (timers rt) = timers_set (trace rt))%nat;
  inv_budget :
    exists bs : list nat,
      Forall2 (fun t b => forall r, sets_at_most b (resume t r)) (inflight rt) bs /\
      (timers_set (trace rt) + sum_list bs <= limit)%nat
}.

(** ** A sample world *)

Module Sample.

Definition alice : Wallet := {| publicKey := "A1ice"; secretKey := repeat Byte.x01 64 |}.
Definition bob : Wallet := {| publicKey := "B0b"; secretKey := repeat Byte.x02 64 |}.
Definition token_mint : PublicKey := "M1nt".
Definition sdk : Raydium := raydium_instance 1.

Definition one_SOL : number := Num.of_Z 1000000000.

Definition route_data : RouteData :=
  {| mintInfos :=
       {[ token_mint := {| decimals := Num.of_Z 6; programId := "Tokenkeg"; feeConfig := None |} ]};
     ammPoolsRpcInfo := sdk_object 1;
     ammSimulateCache := {[ "Poo1" := sdk_object 2 ]};
     clmmPoolsRpcInfo := sdk_object 3;
     computeClmmPoolInfo := ∅;
     computePoolTickData := sdk_object 4;
     computeCpmmData := ∅;
     routePathDict := sdk_object 5 |}.

Definition direct : RouteCandidate :=
  {| amountIn := 995000000; amountOut := 950; routeType := route_amm;
     poolInfoList := [sdk_object 2] |}.

Definition two_hops : RouteCandidate :=
  {| amountIn := 995000000; amountOut := 900; routeType := route_route;
     poolInfoList := [sdk_object 6; sdk_object 7] |}.

(** Whether the swap of a wallet went through, in the events so far. *)
Definition swapped (wallet : PublicKey) (hist : list Event) : bool :=
  existsb (fun ev =>
             match ev with
             | Did (Console (LogSwapSuccessful w)) _ => String.eqb w wallet
             | _ => false
             end) hist.

(** A world where every call succeeds: random numbers are [random],
    a wallet holds [balance] lamports until its swap went through and
    5000000 after, the handle read is [handle], the pool data come as
    [pools], and the simulation returns [candidates]. *)
Definition world (random balance : number) (handle : option Raydium)
    (pools : Reason + SdkObject) (candidates : Reason + list RouteCandidate) : Env :=
  {| reply_sync := fun hist t c =>
       match c with
       | Math_random => random
       | Date_now => Num.of_Z 1700000000000
       | ReadRaydium => handle
       | WriteRaydium _ => tt
       | Console _ => tt
       | SetTimeout _ _ => tt
       | SetLoggerLevel _ => tt
       | KeypairFromSecretKey secret =>
           if Nat.eqb (length secret) 64 then inr (keypair secret)
           else inl "bad secret key size"
       | NewToken _ => inr (sdk_object 13)
       | NewTokenAmount _ _ => inr (sdk_object 14)
       | ChainTimeData _ => None
       | GetAllRoute _ _ _ _ => inr {| directPath := ["Poo1"]; routes_rest := sdk_object 8 |}
       | GetAllRouteComputeAmountOut _ _ => candidates
       end;
     reply_async := fun hist t c =>
       match c with
       | GetBalance wallet =>
           inr (if swapped wallet hist then Num.of_Z 5000000 else balance)
       | RaydiumLoad _ _ => inr sdk
       | FetchRoutePoolBasicInfo _ => pools
       | FetchSwapRoutesData _ _ _ _ => inr route_data
       | GetEpochInfo _ => inr (sdk_object 9)
       | ComputePoolToPoolKeys _ _ _ _ => inr (sdk_object 10)
       | Swap _ _ => inr (sdk_object 11)
       | Execute _ _ => inr ["5ig"]
       end |}.

(** Random numbers are 1/2, wallets hold 1 SOL, two routes are found. *)
Definition fair : Env :=
  world (Num.dec 1 2) one_SOL (Some sdk) (inr (sdk_object 12)) (inr [direct; two_hops]).


(** The same, with no route found. *)
Definition no_route : Env :=
  world (Num.dec 1 2) one_SOL (Some sdk) (inr (sdk_object 12)) (inr []).

(** The same, with the RPC node failing on the pool data. *)
Definition offline : Env :=
  world (Num.dec 1 2) one_SOL (Some sdk) (inl "fetch failed") (inr [direct; two_hops]).


(** Wallets that hold nothing. *)
Definition broke : Env :=
  world (Num.dec 1 2) Num.zero (Some sdk) (inr (sdk_object 12)) (inr [direct; two_hops]).

End Sample.

(** * Properties *)

(** ** Runs of composed functions *)

Lemma runs_bind_intro {A B} (p : Proc A) (f : A -> Proc B) a evs1 evs2 o :
  runs p evs1 (Returned a) -> runs (f a) evs2 o -> runs (bind p f) (evs1 ++ evs2) o.
Proof.
  revert evs1. induction p as [r|e|code|c k IH|c k IH]; simpl; intros evs1 Hp Hf.
  - destruct Hp as [-> [= ->]]. exact Hf.
  - destruct Hp as [_ [=]].
  - destruct Hp as [_ [=]].
  - destruct Hp as (r & evs' & -> & Hp). exists r, (evs' ++ evs2). split; [done|]. by apply IH.
  - destruct Hp as (r & evs' & -> & Hp). exists r, (evs' ++ evs2). split; [done|]. by apply IH.
Qed.

Lemma runs_bind_inv {A B} (p : Proc A) (f : A -> Proc B) evs o :
  runs (bind p f) evs o ->
  (exists a evs1 evs2, evs = evs1 ++ evs2 /\ runs p evs1 (Returned a) /\ runs (f a) evs2 o)
  \/ (exists e, runs p evs (Threw e) /\ o = Threw e)
  \/ (exists code, runs p evs (Exited code) /\ o = Exited code).
Proof.
  revert evs. induction p as [r|e|code|c k IH|c k IH]; simpl; intros evs H.
  - left. exists r, [], evs. auto.
  - right; left. destruct H as [-> ->]. eauto.
  - right; right. destruct H as [-> ->]. eauto.
  - destruct H as (r & evs' & -> & H).
    destruct (IH r _ H) as [(a & evs1 & evs2 & -> & H1 & H2)|[(e & H1 & ->)|(code & H1 & ->)]].
    + left. exists a, (Did c (sync_value c r) :: evs1), evs2. eauto 10.
    + right; left. eauto 10.
    + right; right. eauto 10.
  - destruct H as (r & evs' & -> & H).
    destruct (IH r _ H) as [(a & evs1 & evs2 & -> & H1 & H2)|[(e & H1 & ->)|(code & H1 & ->)]].
    + left. exists a, (Awaited c (async_value c r) :: evs1), evs2. eauto 10.
    + right; left. eauto 10.
    + right; right. eauto 10.
Qed.

Lemma runs_try_catch_inv {A} (p : Proc A) (h : Err -> Proc A) evs o :
  runs (try_catch p h) evs o ->
  (exists a, runs p evs (Returned a) /\ o = Returned a)
  \/ (exists e evs1 evs2, evs = evs1 ++ evs2 /\ runs p evs1 (Threw e) /\ runs (h e) evs2 o)
  \/ (exists code, runs p evs (Exited code) /\ o = Exited code).
Proof.
  revert evs. induction p as [r|e|code|c k IH|c k IH]; simpl; intros evs H.
  - left. destruct H as [-> ->]. eauto.
  - right; left. exists e, [], evs. auto.
  - right; right. destruct H as [-> ->]. eauto.
  - destruct H as (r & evs' & -> & H).
    destruct (IH r _ H) as [(a & H1 & ->)|[(e & evs1 & evs2 & -> & H1 & H2)|(code & H1 & ->)]].
    + left. eauto 10.
    + right; left. exists e, (Did c (sync_value c r) :: evs1), evs2. eauto 10.
    + right; right. eauto 10.
  - destruct H as (r & evs' & -> & H).
    destruct (IH r _ H) as [(a & H1 & ->)|[(e & evs1 & evs2 & -> & H1 & H2)|(code & H1 & ->)]].
    + left. eauto 10.
    + right; left. exists e, (Awaited c (async_value c r) :: evs1), evs2. eauto 10.
    + right; right. eauto 10.
Qed.

Lemma runs_try_catch_threw {A} (p : Proc A) (h : Err -> Proc A) e evs1 evs2 o :
  runs p evs1 (Threw e) -> runs (h e) evs2 o -> runs (try_catch p h) (evs1 ++ evs2) o.
Proof.
  revert evs1. induction p as [r|e'|code|c k IH|c k IH]; simpl; intros evs1 Hp Hh.
  - destruct Hp as [_ [=]].
  - destruct Hp as [-> [= ->]]. exact Hh.
  - destruct Hp as [_ [=]].
  - destruct Hp as (r & evs' & -> & Hp). exists r, (evs' ++ evs2). split; [done|]. by apply IH.
  - destruct Hp as (r & evs' & -> & Hp). exists r, (evs' ++ evs2). split; [done|]. by apply IH.
Qed.

Lemma runs_try_catch_returned {A} (p : Proc A) (h : Err -> Proc A) a evs :
  runs p evs (Returned a) -> runs (try_catch p h) evs (Returned a).
Proof.
  revert evs. induction p as [r|e'|code|c k IH|c k IH]; simpl; intros evs Hp.
  - exact Hp.
  - destruct Hp as [_ [=]].
  - destruct Hp as [_ [=]].
  - destruct Hp as (r & evs' & -> & Hp). exists r, evs'. split; [done|]. by apply IH.
  - destruct Hp as (r & evs' & -> & Hp). exists r, evs'. split; [done|]. by apply IH.
Qed.

(** A run has one outcome for the results it records. *)
Lemma runs_capBuyAmount MIN w d evs o :
  runs (capBuyAmount MIN w d) evs o <->
  exists reply,
    evs = [Awaited (GetBalance (publicKey w)) (result_value VNumber reply)] /\
    o = match reply with
        | inl reason => Threw (Rejected reason)
        | inr balance =>
            let available := (balance / LAMPORTS_PER_SOL - FEE_BUFFER_SOL)%num in
            if (available <? MIN)%num then Returned Num.zero
            else Returned (Num.Math_min d available)
        end.
Proof.
  unfold capBuyAmount, await; simpl. split.
  - intros (r & evs' & -> & H). exists r. destruct r as [e|b]; simpl in *.
    + destruct H as [-> ->]. done.
    + destruct (_ <? _)%num; simpl in H; destruct H as [-> ->]; done.
  - intros (r & -> & ->). exists r, []. split; [done|].
    destruct r as [e|b]; simpl; [done|]. destruct (_ <? _)%num; simpl; done.
Qed.

(** What [play] produces is a behaviour. *)
Lemma play_runs env t {R} (p : Proc R) hist :
  runs p (fst (play env t p hist)) (snd (play env t p hist)).
Proof.
  revert hist. induction p as [r|e|code|c k IH|c k IH]; intros hist; simpl; try done.
  - eexists _, _. split; [reflexivity|]. apply IH.
  - eexists _, _. split; [reflexivity|]. apply IH.
Qed.

(** ** The order of numbers *)

Module NumFacts.

Lemma compare_cont_Eq p q : Pos.compare_cont Eq p q = (p ?= q)%positive.
Proof. reflexivity. Qed.

Lemma compare_none x y :
  SFcompare x y = None <-> Num.is_nan x = true \/ Num.is_nan y = true.
Proof.
  destruct x as [sx|sx| |sx mx ex], y as [sy|sy| |sy my ey]; simpl; intuition congruence.
Qed.

Lemma compare_antisym x y :
  SFcompare y x = option_map CompOpp (SFcompare x y).
Proof.
  destruct x as [[]|[]| |[] mx ex], y as [[]|[]| |[] my ey]; simpl; try reflexivity;
    rewrite (Z.compare_antisym ex ey), !compare_cont_Eq, (Pos.compare_antisym mx my);
    destruct (ex ?= ey); simpl; try reflexivity;
    destruct (mx ?= my)%positive; reflexivity.
Qed.

Lemma compare_refl x : Num.is_nan x = false -> SFcompare x x = Some Eq.
Proof.
  destruct x as [[]|[]| |[] mx ex]; simpl; try done; intros _;
    rewrite Z.compare_refl, compare_cont_Eq, Pos.compare_refl; reflexivity.
Qed.

Lemma leb_not_nan x y : Num.leb x y = true -> Num.is_nan x = false /\ Num.is_nan y = false.
Proof.
  unfold Num.leb, SFleb. destruct (SFcompare x y) eqn:E; [|done]. intros _.
  destruct x, y; simpl in *; done.
Qed.

Lemma ltb_not_nan x y : Num.ltb x y = true -> Num.is_nan x = false /\ Num.is_nan y = false.
Proof.
  unfold Num.ltb, SFltb. destruct (SFcompare x y) eqn:E; [|done]. intros _.
  destruct x, y; simpl in *; done.
Qed.

Lemma leb_refl x : Num.is_nan x = false -> Num.leb x x = true.
Proof. intros H. unfold Num.leb, SFleb. by rewrite compare_refl. Qed.

Lemma ltb_leb x y : Num.ltb x y = true -> Num.leb x y = true.
Proof. unfold Num.ltb, Num.leb, SFltb, SFleb. by destruct (SFcompare x y) as [[]|]. Qed.

(** The order is total away from NaN. *)
Lemma not_ltb_leb x y :
  Num.is_nan x = false -> Num.is_nan y = false ->
  Num.ltb x y = false -> Num.leb y x = true.
Proof.
  intros Hx Hy. unfold Num.ltb, Num.leb, SFltb, SFleb.
  rewrite (compare_antisym x y).
  destruct (SFcompare x y) as [[]|] eqn:E; simpl; try done.
  apply compare_none in E as [E|E]; congruence.
Qed.

Lemma leb_not_ltb x y : Num.leb x y = true -> Num.ltb y x = false.
Proof.
  unfold Num.ltb, Num.leb, SFltb, SFleb. rewrite (compare_antisym x y).
  by destruct (SFcompare x y) as [[]|].
Qed.

Lemma leb_rank x y :
  Num.leb x y = true <->
  Num.is_nan x = false /\ Num.is_nan y = false /\ Num.rank_le (Num.rank x) (Num.rank y).
Proof.
  unfold Num.leb, SFleb.
  destruct x as [[]|[]| |[] mx ex], y as [[]|[]| |[] my ey]; simpl;
    try (split; [done | intros (? & ? & ?); lia]);
    try (split; [intros _; repeat split; lia | done]);
    rewrite compare_cont_Eq;
    destruct (Z.compare_spec ex ey); destruct (Pos.compare_spec mx my); simpl;
    (split; [intros ?; try done; repeat split; lia | intros (_ & _ & ?); try done; lia]).
Qed.

Lemma leb_trans x y z : Num.leb x y = true -> Num.leb y z = true -> Num.leb x z = true.
Proof.
  rewrite !leb_rank. intros (Hx & _ & H1) (_ & Hz & H2). repeat split; try done.
  destruct (Num.rank x) as [[c1 e1] m1], (Num.rank y) as [[c2 e2] m2],
    (Num.rank z) as [[c3 e3] m3].
  simpl in *. lia.
Qed.

(** *** [Math.min] *)

Lemma Math_min_cases a b :
  Num.is_nan a = false -> Num.is_nan b = false ->
  (Num.Math_min a b = a /\ Num.leb a b = true) \/
  (Num.Math_min a b = b /\ Num.leb b a = true).
Proof.
  intros Ha Hb. unfold Num.Math_min. rewrite Ha, Hb. simpl.
  assert (Hgen : (if Num.ltb b a then b else a) = a /\ Num.leb a b = true \/
                 (if Num.ltb b a then b else a) = b /\ Num.leb b a = true).
  { destruct (Num.ltb b a) eqn:E.
    - right. split; [done|]. by apply ltb_leb.
    - left. split; [done|]. by apply not_ltb_leb. }
  destruct a as [[]|[]| |[] ma ea]; try done; destruct b as [[]|[]| |[] mb eb]; try done.
  right. done.
Qed.

Lemma Math_min_le_l a b :
  Num.is_nan a = false -> Num.is_nan b = false -> Num.leb (Num.Math_min a b) a = true.
Proof.
  intros Ha Hb. destruct (Math_min_cases a b Ha Hb) as [[-> _]|[-> H]]; [by apply leb_refl|done].
Qed.

Lemma Math_min_glb a b c :
  Num.leb c a = true -> Num.leb c b = true -> Num.leb c (Num.Math_min a b) = true.
Proof.
  intros Ha Hb.
  destruct (leb_not_nan _ _ Ha) as [_ Ha'], (leb_not_nan _ _ Hb) as [_ Hb'].
  destruct (Math_min_cases a b Ha' Hb') as [[-> _]|[-> _]]; done.
Qed.

(** [Math.min(a, b)] is [a] itself when [a <= b], zeros apart. *)
Lemma Math_min_l a b :
  Num.leb a b = true -> b <> Num.neg_zero -> Num.Math_min a b = a.
Proof.
  intros H Hb. destruct (leb_not_nan _ _ H) as [Ha Hb'].
  unfold Num.Math_min. rewrite Ha, Hb'. simpl. rewrite (leb_not_ltb _ _ H).
  destruct a as [[]|[]| |[] ma ea]; try done; destruct b as [[]|[]| |[] mb eb]; done.
Qed.

End NumFacts.

(** ** Rounding never makes NaN *)

Module RoundFacts.

Import Num.

Lemma shr_record_of_loc_m m l : shr_m (shr_record_of_loc m l) = m.
Proof. by destruct l as [|[]]. Qed.

Lemma shr_1_nonneg mrs : 0 <= shr_m mrs -> 0 <= shr_m (shr_1 mrs).
Proof. destruct mrs as [[|[p|p|]|p] r s]; simpl; lia. Qed.

Lemma iter_pos_nonneg n : forall mrs, 0 <= shr_m mrs -> 0 <= shr_m (iter_pos shr_1 n mrs).
Proof. induction n as [n IH|n IH|]; simpl; intros mrs H; auto using shr_1_nonneg. Qed.

Lemma shr_fexp_nonneg m e l : 0 <= m -> 0 <= shr_m (fst (shr_fexp prec emax m e l)).
Proof.
  intros H. unfold shr_fexp, shr.
  destruct (fexp prec emax (Zdigits2 m + e) - e); simpl;
    try apply iter_pos_nonneg; by rewrite shr_record_of_loc_m.
Qed.

Lemma round_nearest_even_nonneg m l : 0 <= m -> 0 <= round_nearest_even m l.
Proof. intros H. destruct l as [|[]]; simpl; try lia. destruct (Z.even m); lia. Qed.

Lemma binary_round_aux_not_nan s m e l :
  0 <= m -> is_nan (binary_round_aux prec emax s m e l) = false.
Proof.
  intros H. unfold binary_round_aux.
  pose proof (shr_fexp_nonneg m e l H) as H1.
  destruct (shr_fexp prec emax m e l) as [mrs' e']. simpl in H1.
  pose proof (shr_fexp_nonneg _ e' loc_Exact
                (round_nearest_even_nonneg _ (loc_of_shr_record mrs') H1)) as H2.
  destruct (shr_fexp prec emax _ e' loc_Exact) as [mrs'' e'']. simpl in H2.
  destruct (shr_m mrs'') as [|p|p]; [done| |lia].
  by destruct (e'' <=? emax - prec).
Qed.

Lemma binary_round_not_nan s m e : is_nan (binary_round prec emax s m e) = false.
Proof.
  unfold binary_round. destruct (shl_align m e _) as [mz ez].
  by apply binary_round_aux_not_nan.
Qed.

Lemma binary_normalize_not_nan m e s : is_nan (binary_normalize prec emax m e s) = false.
Proof. destruct m; simpl; auto using binary_round_not_nan. Qed.

Lemma of_Z_not_nan z : is_nan (of_Z z) = false.
Proof. apply binary_normalize_not_nan. Qed.

(** [x - y] is a number when [x] is one and [y] is finite. *)
Lemma sub_finite_not_nan x s m e :
  is_nan x = false -> is_nan (sub x (S754_finite s m e)) = false.
Proof.
  unfold sub. destruct x as [sx|sx| |sx mx ex]; simpl; try done. intros _.
  apply binary_normalize_not_nan.
Qed.

(** [x / y] is a number when [x] is one and [y] is finite and not zero. *)
Lemma div_finite_not_nan x s m e :
  is_nan x = false -> is_nan (div x (S754_finite s m e)) = false.
Proof.
  unfold div. destruct x as [sx|sx| |sx mx ex]; simpl; try done. intros _.
  unfold SFdiv_core_binary.
  set (s' := _ - _ - _).
  set (m' := match s' with Z0 => _ | Zpos _ => _ | Zneg _ => _ end).
  assert (0 <= m') as Hm'.
  { subst m'. destruct s'; try lia. apply Z.shiftl_nonneg. lia. }
  pose proof (Z_div_mod m' (Zpos m) ltac:(lia)) as Hdiv.
  destruct (Z.div_eucl m' (Zpos m)) as [q r].
  apply binary_round_aux_not_nan. nia.
Qed.

End RoundFacts.

(** ** Rounding, exactly *)

Module FloatFacts.
Import Num.


Lemma fexp_eq e : fexp prec emax e = Z.max (e - 53) emin.
Proof. reflexivity. Qed.

(** *** Digits *)

Lemma digits_bounds p :
  2 ^ (Zpos (digits2_pos p) - 1) <= Zpos p < 2 ^ Zpos (digits2_pos p).
Proof.
  induction p as [p IH|p IH|]; cbn [digits2_pos]; [| |simpl; lia];
    rewrite Pos2Z.inj_succ;
    replace (Z.succ (Zpos (digits2_pos p)) - 1) with (Z.succ (Zpos (digits2_pos p) - 1)) by lia;
    rewrite !Z.pow_succ_r by lia; lia.
Qed.

Lemma digits_unique p d :
  2 ^ (d - 1) <= Zpos p < 2 ^ d -> Zpos (digits2_pos p) = d.
Proof.
  intros [Hlo Hhi]. pose proof (digits_bounds p) as [Hlo' Hhi'].
  assert (0 < d) as Hd.
  { destruct (Z.le_gt_cases d 0) as [Hle|]; [|done].
    assert (2 ^ d <= 2 ^ 0) by (destruct (Z.eq_dec d 0) as [->|]; [lia|rewrite Z.pow_neg_r; lia]).
    simpl in *. lia. }
  destruct (Z.lt_trichotomy (Zpos (digits2_pos p)) d) as [Hlt|[Heq|Hgt]]; [|done|].
  - assert (2 ^ Zpos (digits2_pos p) <= 2 ^ (d - 1)) by (apply Z.pow_le_mono_r; lia). lia.
  - assert (2 ^ d <= 2 ^ (Zpos (digits2_pos p) - 1)) by (apply Z.pow_le_mono_r; lia). lia.
Qed.

Lemma digits_shift p (j : Z) q :
  0 <= j -> Zpos q = Zpos p * 2 ^ j ->
  Zpos (digits2_pos q) = Zpos (digits2_pos p) + j.
Proof.
  intros Hj Hq. apply digits_unique. pose proof (digits_bounds p) as [Hlo Hhi].
  rewrite Hq.
  replace (Zpos (digits2_pos p) + j - 1) with ((Zpos (digits2_pos p) - 1) + j) by lia.
  rewrite !Z.pow_add_r by lia.
  assert (0 < 2 ^ j) by (apply Z.pow_pos_nonneg; lia). nia.
Qed.

(** *** Iterated shifts *)

Lemma iter_pos_comm {A} (f : A -> A) n : forall x, iter_pos f n (f x) = f (iter_pos f n x).
Proof. induction n as [n IH|n IH|]; simpl; intros x; rewrite ?IH; reflexivity. Qed.

Lemma iter_pos_nat {A} (f : A -> A) n x : iter_pos f n x = Nat.iter (Pos.to_nat n) f x.
Proof.
  revert x. induction n as [n IH|n IH|]; cbn [iter_pos]; intros x.
  - rewrite Pos2Nat.inj_xI, iter_pos_comm, !IH.
    replace (S (2 * Pos.to_nat n))%nat with (S (Pos.to_nat n + Pos.to_nat n))%nat by lia.
    by rewrite Nat.iter_succ, Nat.iter_add, Nat.iter_swap.
  - rewrite Pos2Nat.inj_xO, !IH.
    replace (2 * Pos.to_nat n)%nat with (Pos.to_nat n + Pos.to_nat n)%nat by lia.
    by rewrite Nat.iter_add.
  - reflexivity.
Qed.

Lemma iter_xO_nat (n : nat) p : Zpos (Nat.iter n xO p) = Zpos p * 2 ^ Z.of_nat n.
Proof.
  induction n as [|n IH]; [simpl; lia|].
  rewrite Nat.iter_succ, Pos2Z.inj_xO, IH, Nat2Z.inj_succ, Z.pow_succ_r by lia. lia.
Qed.

Lemma iter_xO p d : Zpos (Pos.iter xO p d) = Zpos p * 2 ^ Zpos d.
Proof.
  rewrite Pos2Nat.inj_iter. change (Z.pos (Nat.iter (Pos.to_nat d) xO p) = Z.pos p * 2 ^ Z.pos d).
  rewrite iter_xO_nat, positive_nat_Z. reflexivity.
Qed.

Lemma shr_1_spec m r s :
  0 <= m ->
  shr_1 {| shr_m := m; shr_r := r; shr_s := s |}
  = {| shr_m := m / 2; shr_r := Z.odd m; shr_s := r || s |}.
Proof.
  intros Hm. destruct m as [|p|p]; [done| |lia].
  destruct p as [p|p|]; cbn [shr_1 orb Z.odd]; f_equal.
  - apply Z.div_unique with 1; lia.
  - apply Z.div_unique with 0; lia.
Qed.

Lemma shr_nat_spec (n : nat) m :
  0 <= m -> (1 <= n)%nat ->
  Nat.iter n shr_1 {| shr_m := m; shr_r := false; shr_s := false |}
  = {| shr_m := m / 2 ^ Z.of_nat n;
       shr_r := Z.odd (m / 2 ^ (Z.of_nat n - 1));
       shr_s := negb (m mod 2 ^ (Z.of_nat n - 1) =? 0) |}.
Proof.
  intros Hm Hn. induction n as [|n IH]; [lia|].
  destruct n as [|n].
  - rewrite Nat.iter_succ. cbn [Nat.iter nat_rect]. rewrite shr_1_spec by done. simpl. f_equal.
    + by rewrite Z.div_1_r.
    + by rewrite Z.mod_1_r.
  - rewrite Nat.iter_succ, IH by lia.
    rewrite shr_1_spec by (apply Z.div_pos; [lia|apply Z.pow_pos_nonneg; lia]).
    replace (Z.of_nat (S (S n)) - 1) with (Z.of_nat (S n)) by lia.
    replace (Z.of_nat (S (S n))) with (Z.of_nat (S n) + 1) by lia.
    set (k := Z.of_nat (S n)). assert (1 <= k) by lia.
    f_equal.
    + assert (0 < 2 ^ k) by (apply Z.pow_pos_nonneg; lia).
      rewrite Z.pow_add_r, Z.pow_1_r by lia. rewrite Z.div_div by lia. done.
    + replace k with ((k - 1) + 1) at 3 by lia.
      rewrite Z.pow_add_r, Z.pow_1_r by lia.
      assert (0 < 2 ^ (k - 1)) by (apply Z.pow_pos_nonneg; lia).
      rewrite Z.rem_mul_r by lia.
      rewrite Zodd_mod.
      destruct (Z.eqb_spec (m mod 2 ^ (k - 1)) 0) as [E0|E0];
        destruct (Z.eqb_spec ((m / 2 ^ (k - 1)) mod 2) 1) as [E1|E1]; simpl.
      * rewrite E0, E1. destruct (Z.eqb_spec (0 + 2 ^ (k - 1) * 1) 0); [lia|done].
      * assert ((m / 2 ^ (k - 1)) mod 2 = 0) as -> by (pose proof (Z.mod_pos_bound (m / 2 ^ (k - 1)) 2); lia).
        rewrite E0. simpl. by rewrite Z.mul_0_r.
      * pose proof (Z.mod_pos_bound m (2 ^ (k - 1))).
        destruct (Z.eqb_spec (m mod 2 ^ (k - 1) + 2 ^ (k - 1) * ((m / 2 ^ (k - 1)) mod 2)) 0); [nia|done].
      * pose proof (Z.mod_pos_bound m (2 ^ (k - 1))).
        pose proof (Z.mod_pos_bound (m / 2 ^ (k - 1)) 2).
        destruct (Z.eqb_spec (m mod 2 ^ (k - 1) + 2 ^ (k - 1) * ((m / 2 ^ (k - 1)) mod 2)) 0); [nia|done].
Qed.

Lemma shr_spec m e (k : Z) :
  0 <= m -> 0 < k ->
  shr {| shr_m := m; shr_r := false; shr_s := false |} e k
  = ({| shr_m := m / 2 ^ k;
        shr_r := Z.odd (m / 2 ^ (k - 1));
        shr_s := negb (m mod 2 ^ (k - 1) =? 0) |}, e + k).
Proof.
  intros Hm Hk. destruct k as [|p|p]; try lia. unfold shr.
  rewrite iter_pos_nat, shr_nat_spec by lia. by rewrite positive_nat_Z.
Qed.


(** *** Rounding, stage by stage *)



Lemma shr_fexp_noshift m e :
  fexp prec emax (Zdigits2 m + e) <= e ->
  shr_fexp prec emax m e loc_Exact = ({| shr_m := m; shr_r := false; shr_s := false |}, e).
Proof.
  intros H. unfold shr_fexp, shr. cbn [shr_record_of_loc].
  destruct (fexp prec emax (Zdigits2 m + e) - e) eqn:E; try done. lia.
Qed.

Lemma shr_fexp_shift m e :
  0 <= m -> e < fexp prec emax (Zdigits2 m + e) ->
  shr_fexp prec emax m e loc_Exact =
  (let k := fexp prec emax (Zdigits2 m + e) - e in
   {| shr_m := m / 2 ^ k;
      shr_r := Z.odd (m / 2 ^ (k - 1));
      shr_s := negb (m mod 2 ^ (k - 1) =? 0) |},
   fexp prec emax (Zdigits2 m + e)).
Proof.
  intros Hm H. unfold shr_fexp. cbn [shr_record_of_loc].
  rewrite shr_spec by lia. cbv zeta. f_equal. lia.
Qed.

Lemma Zdigits2_bounds m : 0 < m -> 2 ^ (Zdigits2 m - 1) <= m < 2 ^ Zdigits2 m.
Proof. destruct m as [|p|p]; try lia. intros _. apply digits_bounds. Qed.

Lemma Zdigits2_le m d : 0 <= d -> 0 <= m < 2 ^ d -> Zdigits2 m <= d.
Proof.
  intros Hd [Hm Hlt]. destruct (Z.eq_dec m 0) as [->|Hne]; [simpl; lia|].
  pose proof (Zdigits2_bounds m ltac:(lia)) as [Hlo _].
  destruct (Z.le_gt_cases (Zdigits2 m) d) as [|Hgt]; [done|].
  assert (2 ^ d <= 2 ^ (Zdigits2 m - 1)) by (apply Z.pow_le_mono_r; lia). lia.
Qed.

(** The second stage of [binary_round_aux]: a carry out of the rounding
    is shifted back in. *)
Lemma stage2 s m f :
  emin <= f -> 0 <= m <= 2 ^ 53 ->
  (let '(mrs, e) := shr_fexp prec emax m f loc_Exact in
   match shr_m mrs with
   | Z0 => S754_zero s
   | Zpos p => if e <=? emax - prec then S754_finite s p e else S754_infinity s
   | Zneg _ => S754_nan
   end) = canon s m f.
Proof.
  intros Hf [Hm0 Hm]. unfold canon.
  destruct (Z.eqb_spec m 0) as [->|Hne].
  { rewrite shr_fexp_noshift; [done|]. rewrite fexp_eq. simpl Zdigits2. unfold emin in *. lia. }
  destruct (Z.eqb_spec m (2 ^ 53)) as [->|Hne53].
  - rewrite shr_fexp_shift; [|done|].
    + replace (Zdigits2 (2 ^ 53)) with 54 by reflexivity. rewrite fexp_eq.
      replace (Z.max (54 + f - 53) emin) with (f + 1) by (unfold emin in *; lia).
      replace (f + 1 - f) with 1 by lia. cbv zeta. cbn [shr_m].
      replace (2 ^ 53 / 2 ^ 1) with (Zpos (2 ^ 52)) by reflexivity. done.
    + replace (Zdigits2 (2 ^ 53)) with 54 by reflexivity. rewrite fexp_eq. unfold emin in *. lia.
  - rewrite shr_fexp_noshift.
    + cbn [shr_m]. destruct m as [|p|p]; try lia. done.
    + rewrite fexp_eq. pose proof (Zdigits2_le m 53 ltac:(lia) ltac:(lia)). unfold emin in *. lia.
Qed.

Lemma rnd_bounds m k :
  0 <= m -> 0 < k ->
  m / 2 ^ k <= rnd m k <= m / 2 ^ k + 1 /\
  (rnd m k = m / 2 ^ k + 1 -> 2 ^ (k - 1) <= m mod 2 ^ k) /\
  (m mod 2 ^ k = 0 -> rnd m k = m / 2 ^ k).
Proof.
  intros Hm Hk. unfold rnd. destruct (Z.leb_spec k 0); [lia|].
  assert (0 < 2 ^ (k - 1)) as Hp by (apply Z.pow_pos_nonneg; lia).
  assert (2 ^ k = 2 ^ (k - 1) * 2) as Hk2.
  { replace k with ((k - 1) + 1) at 1 by lia. by rewrite Z.pow_add_r, Z.pow_1_r by lia. }
  assert (m mod 2 ^ k = m mod 2 ^ (k - 1) + 2 ^ (k - 1) * ((m / 2 ^ (k - 1)) mod 2)) as Hmod.
  { rewrite Hk2. apply Z.rem_mul_r; lia. }
  pose proof (Z.mod_pos_bound m (2 ^ (k - 1)) Hp) as Hb1.
  pose proof (Z.mod_pos_bound (m / 2 ^ (k - 1)) 2 ltac:(lia)) as Hb2.
  rewrite Zodd_mod.
  destruct (Z.eqb_spec ((m / 2 ^ (k - 1)) mod 2) 1) as [E1|E1];
    destruct (Z.eqb_spec (m mod 2 ^ (k - 1)) 0) as [E0|E0];
    cbn [negb loc_of_shr_record round_nearest_even];
    try destruct (Z.even (m / 2 ^ k)); repeat split; intros; try lia; try nia.
Qed.

(** [binary_round_aux] on an exact mantissa: shift, round, renormalize. *)
Lemma binary_round_aux_spec s p e :
  let f := Z.max e (fexp prec emax (Zpos (digits2_pos p) + e)) in
  binary_round_aux prec emax s (Zpos p) e loc_Exact = canon s (rnd (Zpos p) (f - e)) f.
Proof.
  intros f. unfold binary_round_aux.
  pose proof (digits_bounds p) as [Hlo Hhi].
  set (d := Zpos (digits2_pos p)) in *.
  destruct (Z.le_gt_cases (fexp prec emax (d + e)) e) as [Hle|Hgt].
  - rewrite shr_fexp_noshift by done. cbn [shr_m loc_of_shr_record round_nearest_even].
    assert (f = e) as -> by lia. replace (e - e) with 0 by lia.
    unfold rnd. cbn [Z.leb Z.compare]. apply stage2.
    + rewrite fexp_eq in Hle. lia.
    + rewrite fexp_eq in Hle. split; [lia|].
      assert (d <= 53) by lia.
      assert (2 ^ d <= 2 ^ 53) by (apply Z.pow_le_mono_r; lia). lia.
  - rewrite shr_fexp_shift; [|lia|exact Hgt]. cbv zeta. cbn [Zdigits2]. fold d.
    assert (f = fexp prec emax (d + e)) as Hf by lia. rewrite <- Hf.
    cbn [shr_m].
    pose proof (rnd_bounds (Zpos p) (f - e) ltac:(lia) ltac:(lia)) as ([Hr1 Hr2] & _ & _).
    unfold rnd in *. destruct (Z.leb_spec (f - e) 0) as [|_]; [lia|].
    apply stage2.
    + rewrite Hf, fexp_eq. lia.
    + assert (0 <= Zpos p / 2 ^ (f - e)) by (apply Z.div_pos; [lia|apply Z.pow_pos_nonneg; lia]).
      split; [lia|].
      assert (Zpos p / 2 ^ (f - e) < 2 ^ 53); [|lia].
      apply Z.div_lt_upper_bound; [apply Z.pow_pos_nonneg; lia|].
      rewrite <- Z.pow_add_r by lia.
      assert (2 ^ d <= 2 ^ (f - e + 53)); [|lia].
      apply Z.pow_le_mono_r; [lia|]. rewrite Hf, fexp_eq. lia.
Qed.


(** *** Integers *)


Lemma shl_align_spec m e e' :
  shl_align m e e' =
  if e' <? e then (Pos.iter xO m (Z.to_pos (e - e')), e') else (m, e).
Proof.
  unfold shl_align. destruct (Z.ltb_spec e' e) as [Hlt|Hge].
  - destruct (e' - e) as [|d|d] eqn:E; try lia.
    replace (e - e') with (Zpos d) by lia. done.
  - destruct (e' - e) as [|d|d] eqn:E; try lia; done.
Qed.










(** *** [Math.floor(Math.random() * n)] *)


Lemma unit_interval_cases r :
  unit_interval r ->
  (exists s, r = S754_zero s) \/
  (exists mr er, r = S754_finite false mr er /\
                 emin <= er <= -52 /\ Zpos mr + 1 <= 2 ^ (- er) /\ Zpos mr < 2 ^ 53 /\
                 Zpos (digits2_pos mr) + er <= 0).
Proof.
  intros (Hv & H0 & H1). destruct r as [s|s| |s mr er]; [by eauto| | |].
  - destruct s; done.
  - done.
  - right. exists mr, er. destruct s; [done|]. split; [done|].
    unfold valid_binary, bounded, canonical_mantissa in Hv.
    apply andb_true_iff in Hv as [Hc _]. apply Z.eqb_eq in Hc. rewrite fexp_eq in Hc.
    pose proof (digits_bounds mr) as [Hlo Hhi].
    set (d := Zpos (digits2_pos mr)) in *.
    assert (d <= 53 /\ emin <= er) as [Hd He] by lia.
    assert (2 ^ d <= 2 ^ 53) by (apply Z.pow_le_mono_r; lia).
    assert (er < -52 \/ (er = -52 /\ Zpos mr < 2 ^ 52)) as Hlt.
    { unfold ltb, SFltb in H1. change (of_Z 1) with (S754_finite false (2 ^ 52) (-52)) in H1.
      cbn [SFcompare] in H1.
      destruct (Z.compare_spec er (-52)) as [->|Hl|Hg]; [|by left|done].
      right. split; [done|]. rewrite NumFacts.compare_cont_Eq in H1.
      destruct (Pos.compare_spec mr (2 ^ 52)) as [|Hl|]; try done; lia. }
    assert (Zpos mr + 1 <= 2 ^ (- er)) as Hr1.
    { destruct Hlt as [Hl|[-> Hl]]; [|simpl in *; lia].
      assert (2 ^ 53 <= 2 ^ (- er)) by (apply Z.pow_le_mono_r; lia). lia. }
    repeat split; try lia.
    destruct (Z.le_gt_cases (d + er) 0) as [|Hgt]; [done|].
    assert (2 ^ (- er) <= 2 ^ (d - 1)) by (apply Z.pow_le_mono_r; lia). lia.
Qed.








(** *** No negative zero out of a subtraction *)

Lemma binary_round_aux_exponent s m e l s' m' e' :
  binary_round_aux prec emax s m e l = S754_finite s' m' e' -> emin <= e'.
Proof.
  unfold binary_round_aux.
  destruct (shr_fexp prec emax m e l) as [mrs1 e1].
  set (m2 := round_nearest_even _ _).
  unfold shr_fexp, shr. rewrite fexp_eq.
  destruct (Z.max (Zdigits2 m2 + e1 - 53) emin - e1) as [|k|k] eqn:Ek;
    (match goal with |- match ?x with _ => _ end = _ -> _ => destruct x as [|p|p] end;
     [done| |done]);
    (match goal with |- (if ?b then _ else _) = _ -> _ => destruct b end; [|done]);
    intros [= _ _ <-]; lia.
Qed.

Lemma canon_not_zero s V f s0 : 0 < V -> canon s V f <> S754_zero s0.
Proof.
  intros HV. unfold canon. destruct (Z.eqb_spec V 0); [lia|].
  destruct (V =? 2 ^ 53); destruct (_ <=? _); done.
Qed.

Lemma binary_round_not_zero s m e s0 :
  emin <= e -> binary_round prec emax s m e <> S754_zero s0.
Proof.
  intros He. unfold binary_round. rewrite shl_align_spec.
  pose proof (digits_bounds m) as [Hlo Hhi].
  set (d := Zpos (digits2_pos m)) in *. set (f0 := fexp prec emax (d + e)).
  destruct (Z.ltb_spec f0 e) as [Hlt|Hge]; rewrite binary_round_aux_spec; apply canon_not_zero.
  - set (mz := Pos.iter xO m (Z.to_pos (e - f0))).
    assert (Zpos (digits2_pos mz) = d + (e - f0)) as ->.
    { apply digits_shift; [lia|]. subst mz. rewrite iter_xO, Z2Pos.id by lia. done. }
    replace (d + (e - f0) + f0) with (d + e) by lia. fold f0.
    replace (Z.max f0 f0 - f0) with 0 by lia. unfold rnd. cbn [Z.leb Z.compare]. lia.
  - fold d f0. replace (Z.max e f0) with f0 by lia.
    destruct (Z.eq_dec (f0 - e) 0) as [Hk0|Hk0].
    + rewrite Hk0. unfold rnd. cbn [Z.leb Z.compare]. lia.
    + pose proof (rnd_bounds (Zpos m) (f0 - e) ltac:(lia) ltac:(lia)) as ([Hr _] & _ & _).
      assert (0 < Zpos m / 2 ^ (f0 - e)); [|lia].
      apply Z.div_str_pos. split; [apply Z.pow_pos_nonneg; lia|].
      assert (2 ^ (f0 - e) <= 2 ^ (d - 1)); [|lia].
      apply Z.pow_le_mono_r; [lia|]. subst f0. rewrite fexp_eq in *. lia.
Qed.

Lemma sub_not_neg_zero x m e :
  (forall sx mx ex, x = S754_finite sx mx ex -> emin <= ex) ->
  emin <= e ->
  sub x (S754_finite false m e) <> neg_zero.
Proof.
  intros Hx He. unfold sub, neg_zero. destruct x as [sx|sx| |sx mx ex]; cbn [SFsub]; try done.
  specialize (Hx sx mx ex eq_refl).
  destruct (_ - _) as [|p|p]; cbn [binary_normalize]; [done| |];
    apply binary_round_not_zero; lia.
Qed.

Lemma div_exponent x s m e s' m' e' :
  div x (S754_finite s m e) = S754_finite s' m' e' -> emin <= e'.
Proof.
  unfold div. destruct x as [sx|sx| |sx mx ex]; cbn [SFdiv]; try done.
  destruct (SFdiv_core_binary _ _ _ _ _ _) as [[mz ez] lz].
  apply binary_round_aux_exponent.
Qed.

(** *** Integers through [Math.floor] and [setTimeout] *)



End FloatFacts.

(** ** The Amount Capper: [capBuyAmount] *)

Lemma LAMPORTS_PER_SOL_eq : LAMPORTS_PER_SOL = S754_finite false 8388608000000000 (-23).
Proof. reflexivity. Qed.

Lemma FEE_BUFFER_SOL_eq : FEE_BUFFER_SOL = S754_finite false 5764607523034235 (-60).
Proof. reflexivity. Qed.

(** What the wallet can afford is a number whenever its balance is. *)
Lemma maxAffordable_not_nan balance :
  Num.is_nan balance = false ->
  Num.is_nan (balance / LAMPORTS_PER_SOL - FEE_BUFFER_SOL)%num = false.
Proof.
  intros H. rewrite LAMPORTS_PER_SOL_eq, FEE_BUFFER_SOL_eq.
  apply RoundFacts.sub_finite_not_nan, RoundFacts.div_finite_not_nan, H.
Qed.

(** What the wallet can afford is never the negative zero: the fee
    buffer is positive, and a difference that is zero is the positive one. *)
Lemma maxAffordable_not_neg_zero balance :
  (balance / LAMPORTS_PER_SOL - FEE_BUFFER_SOL)%num <> Num.neg_zero.
Proof.
  rewrite LAMPORTS_PER_SOL_eq, FEE_BUFFER_SOL_eq.
  apply FloatFacts.sub_not_neg_zero; [|done].
  intros sx mx ex Hx. by eapply FloatFacts.div_exponent.
Qed.

(** C1, as amended. [capBuyAmount] reads the balance once and rethrows a
    failure of that read; otherwise, with [available] the balance in SOL
    minus the fee buffer, it returns 0 when [available] is below the
    minimum, and [Math.min(desired, available)] when it is not, which is
    the desired amount itself when moreover [desired <= available]. *)
Theorem capBuyAmount_spec MIN wallet desired evs o :
  runs (capBuyAmount MIN wallet desired) evs o <->
  exists reply,
    evs = [Awaited (GetBalance (publicKey wallet)) (result_value VNumber reply)] /\
    match reply with
    | inl reason => o = Threw (Rejected reason)
    | inr balance =>
        let available := (balance / LAMPORTS_PER_SOL - FEE_BUFFER_SOL)%num in
        ((available < MIN)%num -> o = Returned Num.zero) /\
        (~ (available < MIN)%num -> o = Returned (Num.Math_min desired available)) /\
        (~ (available < MIN)%num -> (desired <= available)%num -> o = Returned desired)
    end.
Proof.
  rewrite runs_capBuyAmount. unfold num_lt, num_le.
  split; intros (reply & -> & H); exists reply; (split; [done|]);
    destruct reply as [reason|balance]; try done; cbv zeta in *.
  - destruct (_ <? MIN)%num eqn:Hlt; subst o; repeat split; try done.
    intros _ Hle. f_equal. apply NumFacts.Math_min_l; [done|].
    apply maxAffordable_not_neg_zero.
  - destruct H as (Hlow & Hmin & _).
    destruct (_ <? MIN)%num eqn:Hlt; [by apply Hlow|]. apply Hmin. congruence.
Qed.

(** A wallet holding 1 SOL that wants 0.5 SOL, with a minimum of 0.1 SOL,
    gets the 0.5 SOL. *)
Lemma capBuyAmount_spec_witness :
  runs (capBuyAmount (Num.dec 1 10) Sample.alice (Num.dec 1 2))
       [Awaited (GetBalance "A1ice") (VNumber Sample.one_SOL)]
       (Returned (Num.dec 1 2)).
Proof.
  apply (proj2 (capBuyAmount_spec (Num.dec 1 10) Sample.alice (Num.dec 1 2) _ _)).
  exists (inr Sample.one_SOL). split; [reflexivity|].
  vm_compute. repeat split; intros; congruence.
Defined.

(** The desired amount is not returned whenever it is affordable: a
    wallet holding 0.055 SOL affords the desired 0.03 SOL, but not the
    minimum of 0.1 SOL, and gets 0. *)
Lemma capBuyAmount_affordable_below_minimum :
  (Num.dec 3 100 <= Num.of_Z 55000000 / LAMPORTS_PER_SOL - FEE_BUFFER_SOL)%num /\
  runs (capBuyAmount (Num.dec 1 10) Sample.alice (Num.dec 3 100))
       [Awaited (GetBalance "A1ice") (VNumber (Num.of_Z 55000000))]
       (Returned Num.zero) /\
  Num.zero <> Num.dec 3 100.
Proof.
  split; [vm_compute; reflexivity|]. split; [|vm_compute; discriminate].
  apply runs_capBuyAmount. exists (inr (Num.of_Z 55000000)).
  split; [reflexivity|]. vm_compute. reflexivity.
Qed.

(** C2. For a nonnegative desired amount and a nonnegative minimum, what
    [capBuyAmount] returns is at most the desired amount and at least 0,
    whatever balance the wallet has. *)
Theorem capBuyAmount_bounds MIN wallet desired balance capped :
  (Num.zero <= desired)%num ->
  (Num.zero <= MIN)%num ->
  Num.is_nan balance = false ->
  runs (capBuyAmount MIN wallet desired)
       [Awaited (GetBalance (publicKey wallet)) (VNumber balance)] (Returned capped) ->
  (capped <= desired)%num /\ (Num.zero <= capped)%num.
Proof.
  intros Hd Hmin Hb Hrun. unfold num_le, num_lt in *.
  apply runs_capBuyAmount in Hrun as (reply & [= Hreply] & Ho).
  destruct reply as [e|b]; simpl in Hreply; [done|]. assert (b = balance) as -> by congruence.
  cbv zeta in Ho. pose proof (maxAffordable_not_nan balance Hb) as Hav.
  destruct (NumFacts.leb_not_nan _ _ Hd) as [_ Hd'].
  destruct (NumFacts.leb_not_nan _ _ Hmin) as [_ Hmin'].
  destruct (balance / LAMPORTS_PER_SOL - FEE_BUFFER_SOL <? MIN)%num eqn:Hlt;
    injection Ho as ->.
  - split; [done|]. by apply NumFacts.leb_refl.
  - split.
    + by apply NumFacts.Math_min_le_l.
    + apply NumFacts.Math_min_glb; [done|].
      apply NumFacts.leb_trans with MIN; [done|].
      by apply NumFacts.not_ltb_leb.
Qed.

(** A wallet holding 1 SOL that wants 2 SOL gets what it holds less the
    fee buffer. *)
Lemma capBuyAmount_bounds_witness :
  (Sample.one_SOL / LAMPORTS_PER_SOL - FEE_BUFFER_SOL <= Num.of_Z 2)%num /\
  (Num.zero <= Sample.one_SOL / LAMPORTS_PER_SOL - FEE_BUFFER_SOL)%num.
Proof.
  apply (capBuyAmount_bounds (Num.dec 1 10) Sample.alice (Num.of_Z 2) Sample.one_SOL).
  - vm_compute. reflexivity.
  - vm_compute. reflexivity.
  - reflexivity.
  - apply runs_capBuyAmount. exists (inr Sample.one_SOL).
    split; [reflexivity|]. vm_compute. reflexivity.
Defined.

(** C9, as amended. For a positive minimum and a desired amount at least
    the minimum, [capBuyAmount] returns 0 or a value at least the
    minimum, and the skip test of [runAutoBuy], [capped < MIN], holds
    exactly when it returned 0. *)
Theorem capBuyAmount_zero_or_min MIN wallet desired balance capped :
  (Num.zero < MIN)%num ->
  (MIN <= desired)%num ->
  Num.is_nan balance = false ->
  runs (capBuyAmount MIN wallet desired)
       [Awaited (GetBalance (publicKey wallet)) (VNumber balance)] (Returned capped) ->
  (capped = Num.zero \/ (MIN <= capped)%num) /\
  ((capped <? MIN)%num = true <-> capped = Num.zero).
Proof.
  intros Hmin Hd Hb Hrun. unfold num_le, num_lt in *.
  apply runs_capBuyAmount in Hrun as (reply & [= Hreply] & Ho).
  destruct reply as [e|b]; simpl in Hreply; [done|]. assert (b = balance) as -> by congruence.
  cbv zeta in Ho. pose proof (maxAffordable_not_nan balance Hb) as Hav.
  destruct (NumFacts.ltb_not_nan _ _ Hmin) as [_ Hmin'].
  destruct (balance / LAMPORTS_PER_SOL - FEE_BUFFER_SOL <? MIN)%num eqn:Hlt;
    injection Ho as ->.
  - split; [by left|]. done.
  - assert (Num.leb MIN (Num.Math_min desired (balance / LAMPORTS_PER_SOL - FEE_BUFFER_SOL)%num)
            = true) as Hle.
    { apply NumFacts.Math_min_glb; [done|]. by apply NumFacts.not_ltb_leb. }
    split; [by right|].
    rewrite (NumFacts.leb_not_ltb _ _ Hle). split; [done|]. intros Heq.
    rewrite Heq in Hle. apply NumFacts.leb_not_ltb in Hle. congruence.
Qed.

(** A wallet holding 1 SOL that wants 2 SOL, with a minimum of 0.1 SOL. *)
Lemma capBuyAmount_zero_or_min_witness :
  let capped := (Sample.one_SOL / LAMPORTS_PER_SOL - FEE_BUFFER_SOL)%num in
  (capped = Num.zero \/ (Num.dec 1 10 <= capped)%num) /\
  ((capped <? Num.dec 1 10)%num = true <-> capped = Num.zero).
Proof.
  apply (capBuyAmount_zero_or_min (Num.dec 1 10) Sample.alice (Num.of_Z 2) Sample.one_SOL).
  - vm_compute. reflexivity.
  - vm_compute. reflexivity.
  - reflexivity.
  - apply runs_capBuyAmount. exists (inr Sample.one_SOL).
    split; [reflexivity|]. vm_compute. reflexivity.
Defined.

(** With a minimum of 0 the skip test never holds: a wallet that holds
    nothing gets 0 from [capBuyAmount], and [runAutoBuy] schedules a buy
    of 0 SOL for it. *)
Lemma zero_minimum_never_skips :
  (Num.zero <= Num.zero)%num /\
  (Num.zero <= Num.dec 1 2)%num /\
  runs (capBuyAmount Num.zero Sample.alice (Num.dec 1 2))
       [Awaited (GetBalance "A1ice") (VNumber Num.zero)] (Returned Num.zero) /\
  (Num.zero <? Num.zero)%num = false /\
  exists evs,
    runs (runAutoBuy [Sample.alice] (Num.of_Z 100) (Num.of_Z 5000) Num.zero (Num.of_Z 1))
         evs (Returned tt) /\
    In (Did Math_random (VNumber (Num.dec 1 2))) evs /\
    In (Awaited (GetBalance "A1ice") (VNumber Num.zero)) evs /\
    In (Did (SetTimeout (BuyLater Sample.alice Num.zero) (Num.of_Z 2550)) VUnit) evs.
Proof.
  split; [vm_compute; reflexivity|]. split; [vm_compute; reflexivity|].
  split.
  { apply runs_capBuyAmount. exists (inr Num.zero). split; [reflexivity|].
    vm_compute. reflexivity. }
  split; [vm_compute; reflexivity|].
  pose proof (play_runs Sample.broke 0
    (runAutoBuy [Sample.alice] (Num.of_Z 100) (Num.of_Z 5000) Num.zero (Num.of_Z 1)) []) as H.
  eexists. split.
  - replace (Returned tt) with
      (snd (play Sample.broke 0
        (runAutoBuy [Sample.alice] (Num.of_Z 100) (Num.of_Z 5000) Num.zero (Num.of_Z 1)) []))
      by (vm_compute; reflexivity).
    exact H.
  - vm_compute. tauto.
Qed.

(** ** Shapes *)

Lemma shape_mono (P P' : SyncCall -> Prop) (T T' E E' : Prop) {R} (p : Proc R) :
  (forall c, P c -> P' c) -> (T -> T') -> (E -> E') ->
  shape P T E p -> shape P' T' E' p.
Proof.
  intros HP HT HE. induction p as [r|e|code|c k IH|c k IH]; simpl; auto.
  intros [Hc Hk]. split; auto.
Qed.

Lemma shape_bind P T E {A B} (p : Proc A) (f : A -> Proc B) :
  shape P T E p -> (forall a, shape P T E (f a)) -> shape P T E (bind p f).
Proof.
  intros Hp Hf. induction p as [r|e|code|c k IH|c k IH]; simpl in *; auto.
  destruct Hp as [Hc Hk]. split; auto.
Qed.

Lemma shape_try_catch P T E {A} (p : Proc A) (h : Err -> Proc A) :
  shape P True E p -> (forall e, shape P T E (h e)) -> shape P T E (try_catch p h).
Proof.
  intros Hp Hh. induction p as [r|e|code|c k IH|c k IH]; simpl in *; auto.
  destruct Hp as [Hc Hk]. split; auto.
Qed.

Lemma shape_for_of P T E {A} (l : list A) (body : A -> Proc unit) :
  (forall x, shape P T E (body x)) -> shape P T E (for_of l body).
Proof.
  intros Hb. induction l as [|x l IH]; simpl; [done|]. apply shape_bind; auto.
Qed.

Lemma shape_runs P T E {R} (p : Proc R) evs o :
  shape P T E p -> runs p evs o ->
  (forall c v, In (Did c v) evs -> P c) /\
  (forall e, o = Threw e -> T) /\
  (forall code, o = Exited code -> E).
Proof.
  revert evs. induction p as [r|e|code|c k IH|c k IH]; simpl; intros evs Hs Hr.
  - destruct Hr as [-> ->]. repeat split; intros; try done.
  - destruct Hr as [-> ->]. repeat split; intros; try done.
  - destruct Hr as [-> ->]. repeat split; intros; try done.
  - destruct Hs as [Hc Hk]. destruct Hr as (r & evs' & -> & Hr).
    destruct (IH r evs' (Hk r) Hr) as (H1 & H2 & H3). repeat split; try done.
    intros c' v [Heq|Hin]; [|by eapply H1]. by injection Heq as <- _.
  - destruct Hr as (r & evs' & -> & Hr).
    destruct (IH r evs' (Hs r) Hr) as (H1 & H2 & H3). repeat split; try done.
    intros c' v [Heq|Hin]; [done|by eapply H1].
Qed.

(** Every failure of an awaited or unwrapped call comes from outside. *)
Lemma performBuy_try_shape CONTRACT sdk wallet amount :
  shape swap_call True False (performBuy_try CONTRACT sdk wallet amount).
Proof.
  unfold performBuy_try, console, call, await, unwrap. simpl.
  repeat first
    [ done
    | progress intros
    | split
    | match goal with
      | |- shape _ _ _ (bind _ _) => apply shape_bind
      | |- shape _ _ _ (for_of _ _) => apply shape_for_of
      | |- shape _ _ _ (match ?x with _ => _ end) => destruct x
      | |- shape _ _ _ (if ?x then _ else _) => destruct x
      end
    | progress simpl ].
Qed.

(** ** The Swap Executor: [performBuy] *)

(** Take a run of straight-line code apart, one call at a time. *)
Ltac run_inv H :=
  repeat (simpl in H;
    match type of H with
    | ex _ =>
        let r := fresh "r" in let evs := fresh "evs" in
        destruct H as (r & evs & -> & H)
    | _ = [] /\ ?o = _ =>
        first [ is_var o; destruct H as [-> ->]
              | let Ho := fresh "Ho" in destruct H as [-> Ho]; try discriminate Ho ]
    | runs (bind (bind (match ?x with _ => _ end) _) _) _ _ => destruct x eqn:?
    | runs (bind (match ?x with _ => _ end) _) _ _ => destruct x eqn:?
    | runs (match ?x with _ => _ end) _ _ => destruct x eqn:?
    end).

Lemma runs_log_txs (l : list string) evs o :
  runs (for_of l (fun txId => console (LogTx txId))) evs o ->
  o = Returned tt /\ evs = map (fun txId => Did (Console (LogTx txId)) VUnit) l.
Proof.
  revert evs. induction l as [|x l IH]; simpl; intros evs H.
  - by destruct H as [-> ->].
  - destruct H as ([] & evs' & -> & H). destruct (IH _ H) as [-> ->]. done.
Qed.

Lemma in_log_txs ev (l : list string) :
  In ev (map (fun txId => Did (Console (LogTx txId)) VUnit) l) ->
  exists txId, ev = Did (Console (LogTx txId)) VUnit.
Proof. rewrite in_map_iff. intros (x & <- & _). eauto. Qed.

(** Take a membership in an explicit list of events apart. *)
Ltac in_inv H :=
  repeat
    match type of H with
    | In _ [] => destruct H
    | In _ (_ :: _) => destruct H as [H|H]; [simpl in H; try discriminate H|]
    | In _ (map _ _) => apply in_log_txs in H as [? H]; try discriminate H
    end.

Lemma cons_prefix {A} (a : A) rest before tail :
  rest = before ++ tail -> a :: rest = (a :: before) ++ tail.
Proof. by intros ->. Qed.

(** Find where the tail of the goal starts in an explicit list. *)
Ltac split_at_tail :=
  first [ exact (eq_refl : _ = [] ++ _) | apply cons_prefix; split_at_tail ].

Ltac performBuy_try_cases Hrun :=
  unfold performBuy_try, console, call, await, unwrap in Hrun;
  run_inv Hrun; subst; try (apply runs_log_txs in Hrun as [-> ->]).




(** C4. The attempt fails with "No swap routes found for this pair."
    exactly when the simulation returned no candidate; and a step of the
    execution (pool keys, swap, submission) is only ever made after a
    simulation that returned a non-empty list. *)
Theorem no_route_error_iff_empty C sdk wallet amount evs o :
  runs (performBuy_try C sdk wallet amount) evs o ->
  (o = Threw (Error "No swap routes found for this pair.") <->
   exists sdk' args,
     In (Did (GetAllRouteComputeAmountOut sdk' args) (VCandidates [])) evs) /\
  (forall ev, In ev evs -> is_swap_step ev ->
     exists sdk' args best rest,
       In (Did (GetAllRouteComputeAmountOut sdk' args) (VCandidates (best :: rest))) evs).
Proof.
  intros Hrun. performBuy_try_cases Hrun.
  all: split;
    [split;
      [intros Ho; try discriminate Ho
      |intros (sdk' & args & Hin); in_inv Hin; try (injection Hin as ? ? ?; subst)]
    |intros ev Hin Hstep; in_inv Hin; subst; try done].
  all: try discriminate.
  all: try match goal with
         | H : (length ?l =? 0)%nat = _ |- _ =>
             first [ is_var l; destruct l; try discriminate H | discriminate H ]
         end.
  all: try done.
  all: try (eexists _, _; simpl; eauto 20; fail).
  all: try (eexists _, _, _, _; simpl; eauto 20; fail).
Qed.

(** In the sample world where the simulation finds no route. *)
Lemma no_route_error_iff_empty_witness :
  let attempt := play Sample.no_route 0
                   (performBuy_try Sample.token_mint Sample.sdk Sample.alice (Num.dec 1 2)) [] in
  snd attempt = Threw (Error "No swap routes found for this pair.") /\
  (exists sdk' args,
     In (Did (GetAllRouteComputeAmountOut sdk' args) (VCandidates [])) (fst attempt)) /\
  (forall ev, In ev (fst attempt) -> ~ is_swap_step ev).
Proof.
  intros attempt.
  destruct (no_route_error_iff_empty Sample.token_mint Sample.sdk Sample.alice (Num.dec 1 2)
              (fst attempt) (snd attempt) (play_runs _ _ _ _)) as [Hiff Hstep].
  assert (snd attempt = Threw (Error "No swap routes found for this pair.")) as Hthrew
    by (vm_compute; reflexivity).
  split; [exact Hthrew|]. split; [exact (proj1 Hiff Hthrew)|].
  intros ev Hin Hev. destruct (Hstep ev Hin Hev) as (sdk' & args & best & rest & Hin').
  vm_compute in Hin'. intuition discriminate.
Defined.

Lemma performBuy_shape C sdk wallet amount :
  shape swap_call False False
    (try_catch (performBuy_try C sdk wallet amount)
       (fun error => console (ErrorPerformBuy (publicKey wallet) error))).
Proof.
  apply shape_try_catch; [apply performBuy_try_shape|]. intros e. by simpl.
Qed.

(** C5. With the routing-service handle in place, a failure of any step
    of a swap attempt is caught inside [performBuy] and logged with the
    wallet and the error, and [performBuy] returns: no run of it throws,
    exits the process, sets a timer or assigns the handle. *)
Theorem performBuy_isolates_failures C wallet amount sdk :
  (forall evs error,
     runs (performBuy_try C sdk wallet amount) evs (Threw error) ->
     runs (performBuy C wallet amount)
          (Did ReadRaydium (VHandle (Some sdk)) ::
           evs ++ [Did (Console (ErrorPerformBuy (publicKey wallet) error)) VUnit])
          (Returned tt)) /\
  (forall evs o,
     runs (performBuy C wallet amount) (Did ReadRaydium (VHandle (Some sdk)) :: evs) o ->
     o = Returned tt /\
     (forall c v, In (Did c v) evs -> swap_call c) /\
     (runs (performBuy_try C sdk wallet amount) evs (Returned tt) \/
      exists error evs',
        runs (performBuy_try C sdk wallet amount) evs' (Threw error) /\
        evs = evs' ++ [Did (Console (ErrorPerformBuy (publicKey wallet) error)) VUnit])).
Proof.
  split.
  - intros evs error Hrun. unfold performBuy, call. cbn [bind runs].
    exists (Some sdk), (evs ++ [Did (Console (ErrorPerformBuy (publicKey wallet) error)) VUnit]).
    split; [done|]. eapply runs_try_catch_threw; [done|]. simpl. by exists tt, [].
  - intros evs o Hrun. unfold performBuy, call in Hrun. cbn [bind runs] in Hrun.
    destruct Hrun as (r & evs' & Heq & Hrun). injection Heq as Hr <-.
    cbn in Hr. assert (r = Some sdk) as -> by congruence.
    destruct (shape_runs _ _ _ _ _ _ (performBuy_shape C sdk wallet amount) Hrun)
      as (Hcalls & Hthrow & Hexit).
    assert (o = Returned tt) as ->.
    { destruct o as [[]|e|code]; [done| |]; exfalso; eauto. }
    split; [done|]. split; [done|].
    apply runs_try_catch_inv in Hrun as [(a & Hb & _)|[(e & evs1 & evs2 & -> & Hb & Hh)|(code & _ & [=])]].
    + left. by destruct a.
    + right. exists e, evs1. split; [done|]. simpl in Hh.
      destruct Hh as ([] & evs3 & -> & -> & _). done.
Qed.

(** In the sample world where the RPC node fails on the pool data. *)
Lemma performBuy_isolates_failures_witness :
  runs (performBuy Sample.token_mint Sample.alice (Num.dec 1 2))
       (Did ReadRaydium (VHandle (Some Sample.sdk)) ::
        fst (play Sample.offline 0
               (performBuy_try Sample.token_mint Sample.sdk Sample.alice (Num.dec 1 2)) []) ++
        [Did (Console (ErrorPerformBuy "A1ice" (Rejected "fetch failed"))) VUnit])
       (Returned tt).
Proof.
  apply (proj1 (performBuy_isolates_failures Sample.token_mint Sample.alice (Num.dec 1 2)
                  Sample.sdk)).
  replace (Threw (Rejected "fetch failed")) with
    (snd (play Sample.offline 0
            (performBuy_try Sample.token_mint Sample.sdk Sample.alice (Num.dec 1 2)) []))
    by (vm_compute; reflexivity).
  apply play_runs.
Defined.


(** ** Stages *)








Section Stages.

Variable WALLETS : list Wallet.
Variable MIN_DELAY MAX_DELAY : number.
Variable MIN_BUY_AMOUNT_SOL MAX_BUY_AMOUNT_SOL : number.





End Stages.

(** ** What every reachable state satisfies *)




Section Reachable.

Variable CONTRACT_ADDRESS : PublicKey.
Variable WALLETS : list Wallet.
Variable MIN_DELAY MAX_DELAY : number.
Variable MIN_BUY_AMOUNT_SOL MAX_BUY_AMOUNT_SOL : number.
Variable env : Env.




End Reachable.



(** ** A function driven alone *)

Lemma awaits_app evs1 evs2 : awaits (evs1 ++ evs2) = (awaits evs1 + awaits evs2)%nat.
Proof.
  induction evs1 as [|[c v|c v|c|cb] evs1 IH]; simpl; auto.
Qed.

Lemma timeout_ms_pos delay : 1 <= timeout_ms delay.
Proof.
  unfold timeout_ms. destruct (Num.to_Z _) as [z|]; [|lia].
  destruct (1 <=? z) eqn:H1; simpl; [|lia]. destruct (z <=? 2147483647); lia.
Qed.

Lemma scheduled_due t evs : Forall (fun tm => t < due tm) (scheduled t evs).
Proof.
  induction evs as [|[c v|c v|c|cb] evs IH]; simpl; auto.
  destruct c; auto. constructor; [|done]. simpl. pose proof (timeout_ms_pos delay). lia.
Qed.

Lemma timers_effect c rt v :
  timers (effect c rt) = timers rt ++ scheduled (now rt) [Did c v].
Proof. destruct c; simpl; by rewrite ?app_nil_r. Qed.

Section Drive.

Variable CONTRACT_ADDRESS : PublicKey.
Variable env : Env.

(** Settling its own promises, one after the other, runs a function to
    its end: no time passes, no timer fires, and the timers it set are
    pending when its caller goes on. *)
Lemma drive_alone {A} (p : Proc A) (K : Proc A -> Proc unit) rt :
  EvalCtx K ->
  shape (fun _ => True) True False p ->
  inflight rt = [] ->
  exit_code rt = None ->
  let '(evs, o, rt1) := alone env p rt in
  runs p evs o /\
  run CONTRACT_ADDRESS env (repeat (Settle 0%nat) (awaits evs)) (run_sync env (K p) rt)
    = Some (run_sync env (K (leaf o)) rt1) /\
  now rt1 = now rt /\
  inflight rt1 = [] /\
  exit_code rt1 = None /\
  unhandled rt1 = unhandled rt /\
  timers rt1 = timers rt ++ scheduled (now rt) evs /\
  trace rt1 = trace rt ++ with_issues evs.
Proof.
  intros [HDo HAwait]. revert rt.
  induction p as [r|e|code|c k IH|c k IH]; cbn [alone shape]; intros rt Hshape Hfl Hexit.
  - simpl. by rewrite !app_nil_r.
  - simpl. by rewrite !app_nil_r.
  - done.
  - destruct Hshape as [_ Hshape]. rewrite HDo. cbn [run_sync].
    set (r := answer env rt c).
    set (rt' := record (Did c (sync_value c r)) (effect c rt)).
    specialize (IH r rt' (Hshape r)).
    destruct (alone env (k r) rt') as [[evs o] rt1].
    destruct IH as (Hruns & Hrun & Hnow & Hfl1 & Hex1 & Hun1 & Htm1 & Htr1).
    { subst rt'. simpl. by destruct c. }
    { subst rt'. simpl. by destruct c. }
    repeat split; try done.
    + exists r, evs. done.
    + rewrite Hnow. subst rt'. simpl. by destruct c.
    + rewrite Hun1. subst rt'. simpl. by destruct c.
    + rewrite Htm1. subst rt'. cbn [record timers now].
      rewrite (timers_effect c rt (sync_value c r)). rewrite <- app_assoc. f_equal.
      replace (now (effect c rt)) with (now rt) by by destruct c.
      by destruct c.
    + rewrite Htr1. subst rt'. cbn [record trace].
      replace (trace (effect c rt)) with (trace rt) by by destruct c.
      by rewrite <- app_assoc.
  - set (r := reply_async env (trace rt ++ [Issued c]) (now rt) c).
    set (rt' := {| now := now rt; raydium := raydium rt;
                   trace := (trace rt ++ [Issued c]) ++ [Awaited c (async_value c r)];
                   timers := timers rt; inflight := [];
                   unhandled := unhandled rt; exit_code := None |}).
    specialize (IH r rt' (Hshape r)).
    destruct (alone env (k r) rt') as [[evs o] rt1].
    destruct IH as (Hruns & Hrun & Hnow & Hfl1 & Hex1 & Hun1 & Htm1 & Htr1); [done|done|].
    repeat split; try done.
    + exists r, evs. done.
    + rewrite HAwait. cbn [run_sync awaits repeat run].
      unfold step. cbn [exit_code record]. rewrite Hexit. cbn [inflight record].
      rewrite Hfl. cbn [app lookup list_lookup awaiting resume now trace].
      fold r. cbn [delete list_delete raydium timers unhandled]. exact Hrun.
    + rewrite Htr1. subst rt'. cbn [record trace]. by rewrite <- !app_assoc.
Qed.

End Drive.

(** ** The Buy Orchestrator: [runAutoBuy] *)

Lemma runs_for_of_awaits {A} (l : list A) (body : A -> Proc unit) (n : nat) evs :
  (forall x ch, runs (body x) ch (Returned tt) -> awaits ch = n) ->
  runs (for_of l body) evs (Returned tt) -> awaits evs = (length l * n)%nat.
Proof.
  intros Hb. revert evs. induction l as [|x l IH]; simpl; intros evs H.
  - by destruct H as [-> _].
  - apply runs_bind_inv in H as [(a & evs1 & evs2 & -> & H1 & H2)|[(e & _ & [=])|(code & _ & [=])]].
    destruct a. rewrite awaits_app, (Hb _ _ H1), (IH _ H2). done.
Qed.

Lemma runs_for_of_Forall {A} (l : list A) (body : A -> Proc unit) (P : Event -> Prop) evs o :
  (forall x ch o', runs (body x) ch o' -> Forall P ch) ->
  runs (for_of l body) evs o -> Forall P evs.
Proof.
  intros Hb. revert evs. induction l as [|x l IH]; simpl; intros evs H.
  - destruct H as [-> _]. constructor.
  - apply runs_bind_inv in H as [(a & evs1 & evs2 & -> & H1 & H2)|[(e & H1 & _)|(code & H1 & _)]];
      [apply Forall_app; split|..]; eauto.
Qed.

Lemma decided_app evs1 evs2 : decided (evs1 ++ evs2) = decided evs1 ++ decided evs2.
Proof.
  induction evs1 as [|[c v|c v|c|cb] evs1 IH]; simpl; auto.
  destruct c; simpl; auto;
    match goal with
    | x : LogEntry |- _ => destruct x
    | x : Callback |- _ => destruct x
    end; simpl; by rewrite ?IH.
Qed.

(** A loop whose body decides on its element, or fails on the balance
    query, decides on the elements in order, up to the first failure. *)
Lemma runs_for_of_decided {A} (l : list A) (body : A -> Proc unit) (key : A -> PublicKey) evs o :
  (forall x ch o', runs (body x) ch o' ->
     (o' = Returned tt /\ map decision_wallet (decided ch) = [key x]) \/
     (exists reason, o' = Threw (Rejected reason) /\ decided ch = [] /\
                     In (Awaited (GetBalance (key x)) (VRejected reason)) ch)) ->
  runs (for_of l body) evs o ->
  (o = Returned tt /\ map decision_wallet (decided evs) = map key l) \/
  (exists k x reason,
     l !! k = Some x /\ o = Threw (Rejected reason) /\
     In (Awaited (GetBalance (key x)) (VRejected reason)) evs /\
     map decision_wallet (decided evs) = map key (take k l)).
Proof.
  intros Hb. revert evs. induction l as [|x l IH]; simpl; intros evs H.
  - destruct H as [-> ->]. by left.
  - apply runs_bind_inv in H
      as [([] & evs1 & evs2 & -> & H1 & H2)|[(e & H1 & ->)|(code & H1 & ->)]].
    + destruct (Hb _ _ _ H1) as [[_ Hd]|(reason & [=] & _)].
      rewrite decided_app, map_app, Hd.
      destruct (IH _ H2) as [[-> Hl]|(k & y & reason & Hk & -> & Hin & Hl)].
      * left. by rewrite Hl.
      * right. exists (S k), y, reason. repeat split; try done.
        -- apply in_or_app. by right.
        -- by rewrite Hl.
    + destruct (Hb _ _ _ H1) as [[[=] _]|(reason & [= ->] & Hd & Hin)].
      right. exists 0%nat, x, reason. by rewrite Hd.
    + destruct (Hb _ _ _ H1) as [[[=] _]|(reason & [=] & _)].
Qed.

Lemma scheduled_decided t evs : scheduled t evs = buys_pending t (decided evs).
Proof.
  induction evs as [|[c v|c v|c|cb] evs IH]; simpl; auto.
  destruct c; simpl; auto;
    match goal with
    | x : LogEntry |- _ => destruct x
    | x : Callback |- _ => destruct x
    end; simpl; by rewrite ?IH.
Qed.

(** A function body starts no timer callback. *)
Lemma runs_not_fired {R} (p : Proc R) evs o cb :
  runs p evs o -> ~ In (Fired cb) (with_issues evs).
Proof.
  revert evs. induction p as [r|e|code|c k IH|c k IH]; simpl; intros evs H.
  - destruct H as [-> _]. by intros [].
  - destruct H as [-> _]. by intros [].
  - destruct H as [-> _]. by intros [].
  - destruct H as (r & evs' & -> & H). simpl. intros [[=]|Hin]. by eapply IH.
  - destruct H as (r & evs' & -> & H). simpl. intros [[=]|[[=]|Hin]]. by eapply IH.
Qed.

Section Orchestrator.

Variable WALLETS : list Wallet.
Variable MIN_DELAY MAX_DELAY : number.
Variable MIN_BUY_AMOUNT_SOL MAX_BUY_AMOUNT_SOL : number.

Let orchestrator : Proc unit :=
  runAutoBuy WALLETS MIN_DELAY MAX_DELAY MIN_BUY_AMOUNT_SOL MAX_BUY_AMOUNT_SOL.

Lemma runAutoBuy_shape : shape (fun _ => True) True False orchestrator.
Proof.
  unfold orchestrator, runAutoBuy, capBuyAmount, console, call, await. simpl.
  split; [done|]. intros _. apply shape_for_of. intros w. simpl.
  split; [done|]. intros r [reason|balance]; simpl; [done|].
  destruct (_ <? _)%num; simpl; destruct (_ <? _)%num; simpl; done.
Qed.

(** A run that returns has asked for the balance of every wallet. *)
Lemma runAutoBuy_awaits evs :
  runs orchestrator evs (Returned tt) -> awaits evs = length WALLETS.
Proof.
  unfold orchestrator, runAutoBuy, console, call. simpl.
  intros ([] & evs' & -> & H). simpl.
  assert (awaits evs' = (length WALLETS * 1)%nat) as ->; [|lia].
  eapply runs_for_of_awaits; [|exact H].
  intros w ch Hw. unfold capBuyAmount, await in Hw. run_inv Hw; done.
Qed.

(** C7. [runAutoBuy] is fire-and-forget.  Wherever it is awaited ([K]),
    settling its own balance queries takes it to its end: it has
    decided on the wallets in order, on every one when it returns,
    skipping it or setting one timer for it; no time has passed, no
    timer callback has started, and the timers it set, one for each
    wallet it did not skip, are pending, due later, when its caller
    goes on. *)
Theorem runAutoBuy_fire_and_forget CONTRACT_ADDRESS env (K : Proc unit -> Proc unit) rt :
  EvalCtx K ->
  inflight rt = [] ->
  exit_code rt = None ->
  let '(evs, o, rt1) := alone env orchestrator rt in
  runs orchestrator evs o /\
  run CONTRACT_ADDRESS env (repeat (Settle 0%nat) (awaits evs))
      (run_sync env (K orchestrator) rt)
    = Some (run_sync env (K (leaf o)) rt1) /\
  (exists k,
     map decision_wallet (decided evs) = map publicKey (take k WALLETS) /\
     (o = Returned tt -> k = length WALLETS /\ awaits evs = length WALLETS)) /\
  now rt1 = now rt /\
  inflight rt1 = [] /\
  timers rt1 = timers rt ++ buys_pending (now rt) (decided evs) /\
  Forall (fun tm => now rt1 < due tm) (buys_pending (now rt) (decided evs)) /\
  trace rt1 = trace rt ++ with_issues evs /\
  (forall cb, ~ In (Fired cb) (with_issues evs)).
Proof.
  intros HK Hfl Hexit.
  pose proof (drive_alone CONTRACT_ADDRESS env orchestrator K rt HK runAutoBuy_shape Hfl Hexit)
    as Hdrive.
  destruct (alone env orchestrator rt) as [[evs o] rt1].
  destruct Hdrive as (Hruns & Hrun & Hnow & Hfl1 & Hex1 & Hun1 & Htm1 & Htr1).
  rewrite scheduled_decided in Htm1.
  repeat split; try done.
  - pose proof Hruns as Hd. unfold orchestrator, runAutoBuy, console, call in Hd.
    cbn [bind runs] in Hd. destruct Hd as ([] & evs' & -> & Hd).
    eapply (runs_for_of_decided _ _ publicKey) in Hd.
    + destruct Hd as [[-> Hd]|(k & w & reason & Hk & -> & Hin & Hd)].
      * exists (length WALLETS). rewrite firstn_all. split; [done|]. intros _.
        split; [done|]. by apply runAutoBuy_awaits.
      * exists k. split; [done|]. intros [=].
    + intros w ch o' Hw. unfold capBuyAmount, await in Hw. run_inv Hw; subst.
      all: repeat match goal with u : unit |- _ => destruct u end.
      all: first [ left; done | right; eexists; repeat split; simpl; eauto ].
  - rewrite Hnow, <- scheduled_decided. apply scheduled_due.
  - intros cb. by eapply runs_not_fired.
Qed.

End Orchestrator.

(** Two wallets in the sample world, with [runAutoBuy] called at the
    start of the process. *)
Lemma runAutoBuy_fire_and_forget_witness :
  let orchestrator :=
    runAutoBuy [Sample.alice; Sample.bob] (Num.of_Z 100) (Num.of_Z 5000)
               (Num.dec 1 10) (Num.of_Z 3) in
  let amount := (Sample.one_SOL / LAMPORTS_PER_SOL - FEE_BUFFER_SOL)%num in
  (snd (fst (alone Sample.fair orchestrator initial)) = Returned tt /\
   timers (snd (alone Sample.fair orchestrator initial))
   = [{| due := 2550; callback := BuyLater Sample.alice amount |};
      {| due := 2550; callback := BuyLater Sample.bob amount |}]) /\
  let '(evs, o, rt1) := alone Sample.fair orchestrator initial in
  runs orchestrator evs o /\
  run Sample.token_mint Sample.fair (repeat (Settle 0%nat) (awaits evs))
      (run_sync Sample.fair orchestrator initial)
    = Some (run_sync Sample.fair (leaf o) rt1) /\
  (exists k,
     map decision_wallet (decided evs) = map publicKey (take k [Sample.alice; Sample.bob]) /\
     (o = Returned tt -> k = 2%nat /\ awaits evs = 2%nat)) /\
  now rt1 = 0 /\
  inflight rt1 = [] /\
  timers rt1 = buys_pending 0 (decided evs) /\
  Forall (fun tm => now rt1 < due tm) (buys_pending 0 (decided evs)) /\
  trace rt1 = with_issues evs /\
  (forall cb, ~ In (Fired cb) (with_issues evs)).
Proof.
  intros orchestrator amount. split; [split; vm_compute; reflexivity|].
  exact (runAutoBuy_fire_and_forget [Sample.alice; Sample.bob] (Num.of_Z 100) (Num.of_Z 5000)
           (Num.dec 1 10) (Num.of_Z 3) Sample.token_mint Sample.fair (fun p => p) initial
           (Build_EvalCtx _ (fun p => p) (fun _ _ => eq_refl) (fun _ _ => eq_refl))
           eq_refl eq_refl).
Defined.

(** ** The drawn delay *)








(** ** The closing snapshot *)

(** C8. The closing snapshot does not wait for the buys.  In the sample
    world, a session of one wallet that holds 1 SOL: once the four
    promises of [main] have settled, [main] has ended, its closing
    snapshot has logged 1 SOL, and the buy is still a pending timer, due
    at 2550 ms.  When the timer has fired and the swap has gone through,
    the wallet holds 0.005 SOL and nothing is left to run. *)
Lemma closing_snapshot_precedes_buy :
  let amount := (Sample.one_SOL / LAMPORTS_PER_SOL - FEE_BUFFER_SOL)%num in
  exists rt1 rt2 before after,
    run Sample.token_mint Sample.fair (repeat (Settle 0%nat) 4)
        (boot [Sample.alice] (Num.of_Z 100) (Num.of_Z 5000) (Num.dec 1 10) (Num.of_Z 3)
              Sample.fair)
    = Some rt1 /\
    inflight rt1 = [] /\
    timers rt1 = [{| due := 2550; callback := BuyLater Sample.alice amount |}] /\
    trace rt1 =
      before ++
      [Did (Console (Log "Fetching final balances...")) VUnit;
       Did (Console (Log "--- Current Wallet Balances ---")) VUnit;
       Issued (GetBalance "A1ice");
       Awaited (GetBalance "A1ice") (VNumber Sample.one_SOL);
       Did (Console (LogBalance "A1ice" (Num.of_Z 1))) VUnit;
       Did (Console (Log "-------------------------------")) VUnit] /\
    (forall cb, ~ In (Fired cb) (trace rt1)) /\
    run Sample.token_mint Sample.fair (Tick 2550 :: Fire 0%nat :: repeat (Settle 0%nat) 6) rt1
    = Some rt2 /\
    trace rt2 = trace rt1 ++ Fired (BuyLater Sample.alice amount) :: after /\
    In (Did (Console (LogSwapSuccessful "A1ice")) VUnit) after /\
    inflight rt2 = [] /\
    timers rt2 = [] /\
    exit_code rt2 = None /\
    reply_async Sample.fair (trace rt2) (now rt2) (GetBalance "A1ice")
    = inr (Num.of_Z 5000000).
Proof.
  intros amount.
  set (rt1 := default initial
         (run Sample.token_mint Sample.fair (repeat (Settle 0%nat) 4)
            (boot [Sample.alice] (Num.of_Z 100) (Num.of_Z 5000) (Num.dec 1 10) (Num.of_Z 3)
               Sample.fair))).
  set (rt2 := default initial
         (run Sample.token_mint Sample.fair
            (Tick 2550 :: Fire 0%nat :: repeat (Settle 0%nat) 6) rt1)).
  exists rt1, rt2, (take (length (trace rt1) - 6) (trace rt1)),
    (drop (S (length (trace rt1))) (trace rt2)).
  do 4 (split; [vm_compute; reflexivity|]).
  split; [intros cb Hin; vm_compute in Hin; intuition discriminate|].
  do 2 (split; [vm_compute; reflexivity|]).
  split; [vm_compute; tauto|].
  do 3 (split; [vm_compute; reflexivity|]).
  vm_compute. reflexivity.
Qed.

(** ** The handle: [initRaydium] *)

(** X1. [initRaydium] throws "No wallets available for initialization."
    exactly when there is no wallet, and then calls nothing.  It assigns
    the global handle exactly when it returns, once, last thing but the
    log line, and what it assigns is the instance that [Raydium.load]
    resolved with for the keypair of the first wallet. *)
Theorem initRaydium_assigns_loaded WALLETS evs o :
  runs (initRaydium WALLETS) evs o ->
  (o = Threw (Error "No wallets available for initialization.") <-> WALLETS = []) /\
  (WALLETS = [] -> evs = []) /\
  (o = Returned tt <-> exists sdk v, In (Did (WriteRaydium sdk) v) evs) /\
  (forall sdk v, In (Did (WriteRaydium sdk) v) evs ->
     exists first owner,
       WALLETS !! 0%nat = Some first /\
       evs = [Did (KeypairFromSecretKey (secretKey first)) (VKeypair owner);
              Did (SetLoggerLevel "Raydium_tradeV2") VUnit;
              Awaited (RaydiumLoad owner "devnet") (VRaydium sdk);
              Did (WriteRaydium sdk) VUnit;
              Did (Console (Log "Raydium SDK initialized successfully.")) VUnit]).
Proof.
  intros Hrun. unfold initRaydium, console, call, await, unwrap in Hrun.
  destruct WALLETS as [|w rest]; run_inv Hrun; subst.
  all: repeat split; try done; try (intros; discriminate).
  all: try (intros (sdk & v & Hin); in_inv Hin; fail).
  all: try (intros sdk v Hin; in_inv Hin).
  all: try (eexists _, _; simpl; eauto 10; fail).
  - by destruct r4.
  - injection Hin as <- <-. by eexists w, _.
Qed.

(** Two wallets in the sample world. *)
Lemma initRaydium_assigns_loaded_witness :
  let attempt := play Sample.fair 0 (initRaydium [Sample.alice; Sample.bob]) [] in
  snd attempt = Returned tt /\
  exists first owner,
    [Sample.alice; Sample.bob] !! 0%nat = Some first /\
    fst attempt =
      [Did (KeypairFromSecretKey (secretKey first)) (VKeypair owner);
       Did (SetLoggerLevel "Raydium_tradeV2") VUnit;
       Awaited (RaydiumLoad owner "devnet") (VRaydium Sample.sdk);
       Did (WriteRaydium Sample.sdk) VUnit;
       Did (Console (Log "Raydium SDK initialized successfully.")) VUnit].
Proof.
  intros attempt.
  destruct (initRaydium_assigns_loaded [Sample.alice; Sample.bob] (fst attempt) (snd attempt)
              (play_runs _ _ _ _)) as (_ & _ & Hret & Hwrite).
  split.
  - apply Hret. exists Sample.sdk, VUnit. vm_compute. tauto.
  - apply (Hwrite Sample.sdk VUnit). vm_compute. tauto.
Defined.


(** ** The Session Reporter: [displayWalletBalances] *)

Lemma runs_balance_loop (ws : list Wallet) evs o :
  runs (for_of ws (fun wallet =>
          let* lamports := await (GetBalance (publicKey wallet)) in
          console (LogBalance (publicKey wallet) (lamports / LAMPORTS_PER_SOL)%num))%proc)
       evs o ->
  exists bs,
    (o = Returned tt /\ length bs = length ws /\ evs = balance_lines ws bs) \/
    (exists w reason,
       ws !! length bs = Some w /\ o = Threw (Rejected reason) /\
       evs = balance_lines ws bs ++ [Awaited (GetBalance (publicKey w)) (VRejected reason)]).
Proof.
  revert evs. induction ws as [|w ws IH]; intros evs Hrun.
  - simpl in Hrun. destruct Hrun as [-> ->]. exists []. by left.
  - cbn [for_of] in Hrun. unfold await, console, call in Hrun. cbn [bind runs] in Hrun.
    destruct Hrun as ([reason|b] & evs1 & -> & Hrun); cbn [bind runs] in Hrun.
    + destruct Hrun as [-> ->]. exists []. right. by exists w, reason.
    + destruct Hrun as ([] & evs2 & -> & Hrun).
      destruct (IH _ Hrun) as (bs & [(-> & Hlen & ->)|(w' & reason & Hw & -> & ->)]).
      * exists (b :: bs). left. simpl. by rewrite Hlen.
      * exists (b :: bs). right. by exists w', reason.
Qed.

(** X2. A balance report asks for the balance of every wallet, in the
    order of the list, once each, and logs it in SOL between the header
    and the footer.  The first query that fails ends the report: the
    rejection is rethrown and the footer is not logged. *)
Theorem displayWalletBalances_report wallets evs o :
  runs (displayWalletBalances wallets) evs o ->
  exists bs,
    (o = Returned tt /\ length bs = length wallets /\
     evs = Did (Console (Log "--- Current Wallet Balances ---")) VUnit ::
           balance_lines wallets bs ++
           [Did (Console (Log "-------------------------------")) VUnit]) \/
    (exists w reason,
       wallets !! length bs = Some w /\ o = Threw (Rejected reason) /\
       evs = Did (Console (Log "--- Current Wallet Balances ---")) VUnit ::
             balance_lines wallets bs ++
             [Awaited (GetBalance (publicKey w)) (VRejected reason)]).
Proof.
  unfold displayWalletBalances, console, call. cbn [bind runs].
  intros ([] & evs1 & -> & Hrun).
  apply runs_bind_inv in Hrun
    as [([] & evs2 & evs3 & -> & Hloop & Hfoot)|[(e & Hloop & ->)|(code & Hloop & ->)]];
    destruct (runs_balance_loop _ _ _ Hloop)
      as (bs & [(Ho & Hlen & ->)|(w & reason & Hw & Ho & ->)]); try discriminate.
  - simpl in Hfoot. destruct Hfoot as ([] & evs4 & -> & -> & ->).
    exists bs. by left.
  - injection Ho as ->. exists bs. right. by exists w, reason.
Qed.

(** Two wallets in the sample world. *)
Lemma displayWalletBalances_report_witness :
  let report := play Sample.fair 0 (displayWalletBalances [Sample.alice; Sample.bob]) [] in
  exists bs,
    (snd report = Returned tt /\ length bs = 2%nat /\
     fst report =
       Did (Console (Log "--- Current Wallet Balances ---")) VUnit ::
       balance_lines [Sample.alice; Sample.bob] bs ++
       [Did (Console (Log "-------------------------------")) VUnit]) \/
    (exists w reason,
       [Sample.alice; Sample.bob] !! length bs = Some w /\
       snd report = Threw (Rejected reason) /\
       fst report =
         Did (Console (Log "--- Current Wallet Balances ---")) VUnit ::
         balance_lines [Sample.alice; Sample.bob] bs ++
         [Awaited (GetBalance (publicKey w)) (VRejected reason)]).
Proof.
  intros report.
  exact (displayWalletBalances_report [Sample.alice; Sample.bob] (fst report) (snd report)
           (play_runs _ _ _ _)).
Defined.


(** ** One decision for each wallet *)

(** X3. [runAutoBuy] decides on every wallet once, in the order of the
    list: it warns that the wallet is skipped, or sets one timer for it.
    A balance query that fails ends the pass with that rejection: the
    wallets before it are decided, that wallet and the ones after it are
    not. *)
Theorem runAutoBuy_decides_each_wallet WALLETS MIN_DELAY MAX_DELAY MIN_BUY MAX_BUY evs o :
  runs (runAutoBuy WALLETS MIN_DELAY MAX_DELAY MIN_BUY MAX_BUY) evs o ->
  (o = Returned tt /\ map decision_wallet (decided evs) = map publicKey WALLETS) \/
  (exists k w reason,
     WALLETS !! k = Some w /\ o = Threw (Rejected reason) /\
     In (Awaited (GetBalance (publicKey w)) (VRejected reason)) evs /\
     map decision_wallet (decided evs) = map publicKey (take k WALLETS)).
Proof.
  unfold runAutoBuy, console, call. cbn [bind runs].
  intros ([] & evs' & -> & Hrun).
  eapply (runs_for_of_decided _ _ publicKey) in Hrun.
  - destruct Hrun as [[-> Hd]|(k & w & reason & Hk & -> & Hin & Hd)]; [by left|].
    right. exists k, w, reason. repeat split; try done. by right.
  - intros w ch o' Hw. unfold capBuyAmount, await in Hw. run_inv Hw; subst.
    all: repeat match goal with u : unit |- _ => destruct u end.
    all: first [ left; done | right; eexists; repeat split; simpl; eauto ].
Qed.

(** Two wallets in the sample world, with delays of 100 to 5000 ms and
    amounts of 0.1 to 3 SOL. *)
Lemma runAutoBuy_decides_each_wallet_witness :
  let pass := play Sample.fair 0
                (runAutoBuy [Sample.alice; Sample.bob] (Num.of_Z 100) (Num.of_Z 5000)
                            (Num.dec 1 10) (Num.of_Z 3)) [] in
  (snd pass = Returned tt /\
   map decision_wallet (decided (fst pass)) = map publicKey [Sample.alice; Sample.bob]) \/
  (exists k w reason,
     [Sample.alice; Sample.bob] !! k = Some w /\ snd pass = Threw (Rejected reason) /\
     In (Awaited (GetBalance (publicKey w)) (VRejected reason)) (fst pass) /\
     map decision_wallet (decided (fst pass))
     = map publicKey (take k [Sample.alice; Sample.bob])).
Proof.
  intros pass.
  exact (runAutoBuy_decides_each_wallet [Sample.alice; Sample.bob] (Num.of_Z 100)
           (Num.of_Z 5000) (Num.dec 1 10) (Num.of_Z 3) (fst pass) (snd pass)
           (play_runs _ _ _ _)).
Defined.

(** ** What a timer is set for *)

(** Every event of a loop is an event of a run of its body. *)
Lemma runs_for_of_In {A} (l : list A) (body : A -> Proc unit) evs o ev :
  runs (for_of l body) evs o -> In ev evs ->
  exists x ch o',
    In x l /\ runs (body x) ch o' /\ In ev ch /\ (forall ev', In ev' ch -> In ev' evs).
Proof.
  revert evs. induction l as [|x l IH]; simpl; intros evs H Hin.
  - destruct H as [-> _]. destruct Hin.
  - apply runs_bind_inv in H
      as [([] & evs1 & evs2 & -> & H1 & H2)|[(e & H1 & ->)|(code & H1 & ->)]].
    + apply in_app_or in Hin as [Hin|Hin].
      * exists x, evs1, (Returned tt). repeat split; auto. intros. apply in_or_app. auto.
      * destruct (IH _ H2 Hin) as (y & ch & o' & Hy & Hr & Hev & Hsub).
        exists y, ch, o'. repeat split; auto. intros. apply in_or_app. auto.
    + exists x, evs, (Threw e). auto.
    + exists x, evs, (Exited code). auto.
Qed.

Lemma Math_min_not_nan a b :
  Num.is_nan (Num.Math_min a b) = false -> Num.is_nan a = false /\ Num.is_nan b = false.
Proof.
  unfold Num.Math_min. destruct (Num.is_nan a), (Num.is_nan b); simpl; done.
Qed.

(** X4. With a positive minimum, a timer is only set for a wallet of the
    list whose balance was read in this pass, and the amount it is set
    for, when it is a number, is at least the minimum and at most what
    that balance affords: the balance in SOL less the fee buffer. *)
Theorem runAutoBuy_schedules_affordable
    WALLETS MIN_DELAY MAX_DELAY MIN_BUY MAX_BUY evs o w amount delay v :
  (Num.zero < MIN_BUY)%num ->
  runs (runAutoBuy WALLETS MIN_DELAY MAX_DELAY MIN_BUY MAX_BUY) evs o ->
  In (Did (SetTimeout (BuyLater w amount) delay) v) evs ->
  In w WALLETS /\
  exists balance,
    In (Awaited (GetBalance (publicKey w)) (VNumber balance)) evs /\
    (Num.is_nan amount = false ->
     (MIN_BUY <= amount)%num /\
     (amount <= balance / LAMPORTS_PER_SOL - FEE_BUFFER_SOL)%num).
Proof.
  unfold num_lt, num_le. intros Hmin Hrun Hin.
  destruct (NumFacts.ltb_not_nan _ _ Hmin) as [_ Hmin'].
  unfold runAutoBuy, console, call in Hrun. cbn [bind runs] in Hrun.
  destruct Hrun as ([] & evs' & -> & Hrun).
  destruct Hin as [[=]|Hin].
  destruct (runs_for_of_In _ _ _ _ _ Hrun Hin) as (x & ch & o' & Hx & Hw & Hev & Hsub).
  unfold capBuyAmount, await in Hw. run_inv Hw; subst.
  all: in_inv Hev.
  all: injection Hev as ? ? ? ?; subst.
  all: split; [done|]; eexists; split; [right; apply Hsub; simpl; eauto|].
  all: try discriminate Hmin.
  intros Hnan. split; [by apply NumFacts.not_ltb_leb|].
  match goal with
  | H : Num.is_nan (Num.Math_min ?d ?a) = false |- _ =>
      destruct (Math_min_not_nan d a H) as [Hd Ha];
      destruct (NumFacts.Math_min_cases d a Hd Ha) as [[-> Hle]|[-> Hle]];
        [done|by apply NumFacts.leb_refl]
  end.
Qed.

(** A wallet holding 1 SOL is set to buy what it holds less the fee
    buffer, after 2550 ms. *)
Lemma runAutoBuy_schedules_affordable_witness :
  let amount := (Sample.one_SOL / LAMPORTS_PER_SOL - FEE_BUFFER_SOL)%num in
  In Sample.alice [Sample.alice] /\
  exists balance,
    In (Awaited (GetBalance "A1ice") (VNumber balance))
       (fst (play Sample.fair 0
               (runAutoBuy [Sample.alice] (Num.of_Z 100) (Num.of_Z 5000)
                           (Num.dec 1 10) (Num.of_Z 3)) [])) /\
    (Num.is_nan amount = false ->
     (Num.dec 1 10 <= amount)%num /\
     (amount <= balance / LAMPORTS_PER_SOL - FEE_BUFFER_SOL)%num).
Proof.
  intros amount.
  apply (runAutoBuy_schedules_affordable [Sample.alice] (Num.of_Z 100) (Num.of_Z 5000)
           (Num.dec 1 10) (Num.of_Z 3)
           (fst (play Sample.fair 0
                   (runAutoBuy [Sample.alice] (Num.of_Z 100) (Num.of_Z 5000)
                               (Num.dec 1 10) (Num.of_Z 3)) []))
           (snd (play Sample.fair 0
                   (runAutoBuy [Sample.alice] (Num.of_Z 100) (Num.of_Z 5000)
                               (Num.dec 1 10) (Num.of_Z 3)) []))
           Sample.alice amount (Num.of_Z 2550) VUnit).
  - vm_compute. reflexivity.
  - apply play_runs.
  - vm_compute. tauto.
Defined.


(** ** What an attempt submits and reports *)

Lemma executions_app evs1 evs2 :
  executions (evs1 ++ evs2) = (executions evs1 + executions evs2)%nat.
Proof.
  induction evs1 as [|[c v|c v|c|cb] evs1 IH]; simpl; auto. destruct c; simpl; auto.
Qed.

Lemma executions_log_txs (l : list string) :
  executions (map (fun txId => Did (Console (LogTx txId)) VUnit) l) = 0%nat.
Proof. induction l; simpl; auto. Qed.

(** A run of [performBuy] is the read of the handle, then nothing more
    when it is unset, or a run of the attempt, with the line of the
    [catch] handler when it threw. *)
Lemma runs_performBuy C wallet amount evs o :
  runs (performBuy C wallet amount) evs o ->
  (evs = [Did ReadRaydium (VHandle None)] /\
   o = Threw (Error "Raydium SDK is not initialized.")) \/
  (exists sdk evs',
     o = Returned tt /\
     ((evs = Did ReadRaydium (VHandle (Some sdk)) :: evs' /\
       runs (performBuy_try C sdk wallet amount) evs' (Returned tt)) \/
      (exists error,
         evs = Did ReadRaydium (VHandle (Some sdk)) ::
               evs' ++ [Did (Console (ErrorPerformBuy (publicKey wallet) error)) VUnit] /\
         runs (performBuy_try C sdk wallet amount) evs' (Threw error)))).
Proof.
  unfold performBuy, call. cbn [bind runs]. intros ([sdk|] & evs' & -> & Hrun).
  - right.
    apply runs_try_catch_inv in Hrun
      as [(a & Hb & ->)|[(e & evs1 & evs2 & -> & Hb & Hh)|(code & Hb & ->)]].
    + destruct a. exists sdk, evs'. split; [done|]. by left.
    + simpl in Hh. destruct Hh as ([] & evs3 & -> & -> & ->).
      exists sdk, evs1. split; [done|]. right. by exists e.
    + destruct (shape_runs _ _ _ _ _ _ (performBuy_try_shape C sdk wallet amount) Hb)
        as (_ & _ & Hexit). destruct (Hexit code eq_refl).
  - left. by destruct Hrun as [-> ->].
Qed.

(** X5. A call of [performBuy] calls [execute] at most once, with
    [sequentially: true], and only on what [swap] built along the route
    whose pool keys [computePoolToPoolKeys] resolved, all three on the
    handle read at the start. *)
Theorem performBuy_executes_once C wallet amount evs o :
  runs (performBuy C wallet amount) evs o ->
  (executions evs <= 1)%nat /\
  forall tx sequentially v,
    In (Awaited (Execute tx sequentially) v) evs ->
    sequentially = true /\
    exists sdk sargs amm clmm,
      In (Did ReadRaydium (VHandle (Some sdk))) evs /\
      In (Awaited (Swap sdk sargs) (VObject tx)) evs /\
      In (Awaited (ComputePoolToPoolKeys sdk (poolInfoList (swapInfo sargs)) amm clmm)
                  (VObject (swapPoolKeys sargs))) evs.
Proof.
  intros Hrun.
  apply runs_performBuy in Hrun
    as [[-> ->]|(sdk & evs' & -> & [[-> Hrun]|(error & -> & Hrun)])].
  - split; [simpl; lia|]. intros tx sq v Hin. in_inv Hin.
  - performBuy_try_cases Hrun.
    all: try (apply runs_log_txs in Hrun as [_ ->]).
    all: split; [simpl; rewrite ?executions_log_txs; lia|].
    all: intros tx sq v Hin; destruct Hin as [[=]|Hin]; in_inv Hin.
    all: injection Hin as <- <- _; split; [done|].
    all: eexists sdk, _, _, _; (split; [|split]); simpl;
      repeat (first [left; reflexivity | right]).
  - performBuy_try_cases Hrun.
    all: try (apply runs_log_txs in Hrun as [[=] _]).
    all: split; [simpl; lia|].
    all: intros tx sq v Hin; destruct Hin as [[=]|Hin];
      apply in_app_or in Hin as [Hin|Hin]; in_inv Hin.
    all: injection Hin as <- <- _; split; [done|].
    all: eexists sdk, _, _, _; (split; [|split]); simpl;
      repeat (first [left; reflexivity | right]).
Qed.

(** A buy of 0.5 SOL in the sample world. *)
Lemma performBuy_executes_once_witness :
  let evs := fst (play Sample.fair 0
                    (performBuy Sample.token_mint Sample.alice (Num.dec 1 2)) []) in
  (executions evs <= 1)%nat /\
  forall tx sequentially v,
    In (Awaited (Execute tx sequentially) v) evs ->
    sequentially = true /\
    exists sdk sargs amm clmm,
      In (Did ReadRaydium (VHandle (Some sdk))) evs /\
      In (Awaited (Swap sdk sargs) (VObject tx)) evs /\
      In (Awaited (ComputePoolToPoolKeys sdk (poolInfoList (swapInfo sargs)) amm clmm)
                  (VObject (swapPoolKeys sargs))) evs.
Proof.
  intros evs.
  exact (performBuy_executes_once Sample.token_mint Sample.alice (Num.dec 1 2) evs
           (snd (play Sample.fair 0
                   (performBuy Sample.token_mint Sample.alice (Num.dec 1 2)) []))
           (play_runs _ _ _ _)).
Defined.


(** X6. When the route data has no mint info for the token to buy, the
    attempt does not get past the arguments of the simulation: it ends
    when [new Token] or [new TokenAmount] throws, or else with a
    [TypeError] right after them.  Either way the clock is not read, the
    epoch info is not fetched, no amount is simulated and nothing is
    swapped. *)
Theorem performBuy_missing_mint_info C sdk wallet amount evs o sdk' routes inputMint outputMint rd :
  runs (performBuy_try C sdk wallet amount) evs o ->
  In (Awaited (FetchSwapRoutesData sdk' routes inputMint outputMint) (VRouteData rd)) evs ->
  mintInfos rd !! C = None ->
  exists poolData,
    let props :=
      {| mint := NATIVE_MINT;
         token_decimals :=
           match mintInfos rd !! NATIVE_MINT with
           | Some info => decimals info
           | None => Num.of_Z 9
           end;
         isToken2022 :=
           match mintInfos rd !! NATIVE_MINT with
           | Some info => String.eqb (programId info) TOKEN_2022_PROGRAM_ID
           | None => false
           end |} in
    let fetched :=
      [Did (Console (LogSwapping (publicKey wallet) amount C)) VUnit;
       Awaited (FetchRoutePoolBasicInfo sdk) (VObject poolData);
       Did (GetAllRoute sdk NATIVE_MINT C poolData) (VRoutes routes);
       Awaited (FetchSwapRoutesData sdk routes NATIVE_MINT C) (VRouteData rd)] in
    let raw := Num.Math_round (amount * LAMPORTS_PER_SOL)%num in
    (exists reason,
       evs = fetched ++ [Did (NewToken props) (VRejected reason)] /\
       o = Threw (Rejected reason)) \/
    (exists token reason,
       evs = fetched ++ [Did (NewToken props) (VObject token);
                         Did (NewTokenAmount token raw) (VRejected reason)] /\
       o = Threw (Rejected reason)) \/
    (exists token tokenAmount,
       evs = fetched ++ [Did (NewToken props) (VObject token);
                         Did (NewTokenAmount token raw) (VObject tokenAmount)] /\
       o = Threw (TypeError "Cannot read properties of undefined (reading 'programId')")).
Proof.
  intros Hrun Hin Hnone. performBuy_try_cases Hrun.
  all: try (apply runs_log_txs in Hrun as [_ ->]).
  all: in_inv Hin.
  all: injection Hin as ? ? ? ? ?; subst.
  all: try congruence.
  all: eexists; cbv zeta; simpl.
  - left. by eexists.
  - right. left. by eexists _, _.
  - right. right. by eexists _, _.
Qed.

(** A token the sample route data knows nothing of. *)
Lemma performBuy_missing_mint_info_witness :
  let attempt := play Sample.fair 0
                   (performBuy_try "0ther" Sample.sdk Sample.alice (Num.dec 1 2)) [] in
  snd attempt = Threw (TypeError "Cannot read properties of undefined (reading 'programId')") /\
  length (fst attempt) = 6%nat /\
  exists poolData,
    let props :=
      {| mint := NATIVE_MINT;
         token_decimals :=
           match mintInfos Sample.route_data !! NATIVE_MINT with
           | Some info => decimals info
           | None => Num.of_Z 9
           end;
         isToken2022 :=
           match mintInfos Sample.route_data !! NATIVE_MINT with
           | Some info => String.eqb (programId info) TOKEN_2022_PROGRAM_ID
           | None => false
           end |} in
    let fetched :=
      [Did (Console (LogSwapping "A1ice" (Num.dec 1 2) "0ther")) VUnit;
       Awaited (FetchRoutePoolBasicInfo Sample.sdk) (VObject poolData);
       Did (GetAllRoute Sample.sdk NATIVE_MINT "0ther" poolData)
           (VRoutes {| directPath := ["Poo1"]; routes_rest := sdk_object 8 |});
       Awaited (FetchSwapRoutesData Sample.sdk
                  {| directPath := ["Poo1"]; routes_rest := sdk_object 8 |}
                  NATIVE_MINT "0ther")
               (VRouteData Sample.route_data)] in
    let raw := Num.Math_round (Num.dec 1 2 * LAMPORTS_PER_SOL)%num in
    (exists reason,
       fst attempt = fetched ++ [Did (NewToken props) (VRejected reason)] /\
       snd attempt = Threw (Rejected reason)) \/
    (exists token reason,
       fst attempt = fetched ++ [Did (NewToken props) (VObject token);
                                 Did (NewTokenAmount token raw) (VRejected reason)] /\
       snd attempt = Threw (Rejected reason)) \/
    (exists token tokenAmount,
       fst attempt = fetched ++ [Did (NewToken props) (VObject token);
                                 Did (NewTokenAmount token raw) (VObject tokenAmount)] /\
       snd attempt
       = Threw (TypeError "Cannot read properties of undefined (reading 'programId')")).
Proof.
  intros attempt.
  split; [vm_compute; reflexivity|]. split; [vm_compute; reflexivity|].
  apply (performBuy_missing_mint_info "0ther" Sample.sdk Sample.alice (Num.dec 1 2)
           (fst attempt) (snd attempt) Sample.sdk
           {| directPath := ["Poo1"]; routes_rest := sdk_object 8 |}
           NATIVE_MINT "0ther" Sample.route_data).
  - apply play_runs.
  - vm_compute. tauto.
  - vm_compute. reflexivity.
Defined.

(** X7. A call of [performBuy] that found the handle set ends in one of
    two ways.  The submission resolved: then the success line and one
    line for each transaction id, in order, are the last things logged,
    and no error line is.  Or a step failed: then the error line, with
    the wallet and the error, is the last thing logged, and neither a
    success line nor a resolved submission comes before it. *)
Theorem performBuy_reports_outcome C wallet amount evs :
  runs (performBuy C wallet amount) evs (Returned tt) ->
  (exists before tx txIds,
     evs = before ++
           Awaited (Execute tx true) (VTxIds txIds) ::
           Did (Console (LogSwapSuccessful (publicKey wallet))) VUnit ::
           map (fun txId => Did (Console (LogTx txId)) VUnit) txIds /\
     forall w e v, ~ In (Did (Console (ErrorPerformBuy w e)) v) evs) \/
  (exists before error,
     evs = before ++ [Did (Console (ErrorPerformBuy (publicKey wallet) error)) VUnit] /\
     (forall w v, ~ In (Did (Console (LogSwapSuccessful w)) v) evs) /\
     (forall tx sequentially txIds,
        ~ In (Awaited (Execute tx sequentially) (VTxIds txIds)) evs)).
Proof.
  intros Hrun.
  apply runs_performBuy in Hrun
    as [[_ [=]]|(sdk & evs' & _ & [[-> Hrun]|(error & -> & Hrun)])].
  - left. performBuy_try_cases Hrun.
    all: apply runs_log_txs in Hrun as [_ ->].
    all: eexists _, _, _; split; [simpl; split_at_tail|].
    all: intros w e v Hin; destruct Hin as [[=]|Hin]; in_inv Hin.
  - right. exists (Did ReadRaydium (VHandle (Some sdk)) :: evs'), error. split; [done|].
    performBuy_try_cases Hrun.
    all: try (apply runs_log_txs in Hrun as [[=] _]).
    all: split;
      [intros w v Hin|intros tx sq txIds Hin];
      destruct Hin as [[=]|Hin]; apply in_app_or in Hin as [Hin|Hin]; in_inv Hin.
Qed.

(** A buy of 0.5 SOL in the sample world. *)
Lemma performBuy_reports_outcome_witness :
  let evs := fst (play Sample.fair 0
                    (performBuy Sample.token_mint Sample.alice (Num.dec 1 2)) []) in
  (exists before tx txIds,
     evs = before ++
           Awaited (Execute tx true) (VTxIds txIds) ::
           Did (Console (LogSwapSuccessful "A1ice")) VUnit ::
           map (fun txId => Did (Console (LogTx txId)) VUnit) txIds /\
     forall w e v, ~ In (Did (Console (ErrorPerformBuy w e)) v) evs) \/
  (exists before error,
     evs = before ++ [Did (Console (ErrorPerformBuy "A1ice" error)) VUnit] /\
     (forall w v, ~ In (Did (Console (LogSwapSuccessful w)) v) evs) /\
     (forall tx sequentially txIds,
        ~ In (Awaited (Execute tx sequentially) (VTxIds txIds)) evs)).
Proof.
  intros evs.
  apply (performBuy_reports_outcome Sample.token_mint Sample.alice (Num.dec 1 2) evs).
  replace (Returned tt) with
    (snd (play Sample.fair 0 (performBuy Sample.token_mint Sample.alice (Num.dec 1 2)) []))
    by (vm_compute; reflexivity).
  apply play_runs.
Defined.


(** ** The entrypoint: [main] *)




(** X9. With no wallet configured, the process logs the two headers, an
    empty balance report and the fatal error "No wallets available for
    initialization.", and exits with code 1, whatever the world
    answers: it awaits nothing, sets no timer, leaves the handle unset,
    and takes no further step. *)
Theorem no_wallets_exits_at_once MIN_DELAY MAX_DELAY MIN_BUY MAX_BUY env :
  let rt := boot [] MIN_DELAY MAX_DELAY MIN_BUY MAX_BUY env in
  exit_code rt = Some 1 /\
  trace rt =
    [Did (Console (Log "Fetching initial balances...")) VUnit;
     Did (Console (Log "--- Current Wallet Balances ---")) VUnit;
     Did (Console (Log "-------------------------------")) VUnit;
     Did (Console (Log "Initializing Raydium SDK...")) VUnit;
     Did (Console (ErrorFatal (Error "No wallets available for initialization."))) VUnit] /\
  inflight rt = [] /\ timers rt = [] /\ raydium rt = None /\ unhandled rt = [] /\
  forall C ch, step C env ch rt = None.
Proof.
  repeat split; try reflexivity.
Qed.

(** ** The wallet of an attempt *)

Lemma same_calls_refl {R} (p : Proc R) : same_calls p p.
Proof. induction p; constructor; auto. Qed.

Lemma same_calls_bind {A B} (p q : Proc A) (f g : A -> Proc B) :
  same_calls p q -> (forall a, same_calls (f a) (g a)) ->
  same_calls (bind p f) (bind q g).
Proof. intros Hpq Hfg. induction Hpq; simpl; try constructor; auto. Qed.

Lemma same_calls_try_catch {A} (p q : Proc A) (h h' : Err -> Proc A) :
  same_calls p q -> (forall e, same_calls (h e) (h' e)) ->
  same_calls (try_catch p h) (try_catch q h').
Proof. intros Hpq Hh. induction Hpq; simpl; try constructor; auto. Qed.

Lemma same_calls_runs {R} (p q : Proc R) evs o :
  same_calls p q -> runs p evs o ->
  exists evs', runs q evs' o /\ sdk_calls evs' = sdk_calls evs.
Proof.
  intros Hpq. revert evs.
  induction Hpq as [r|e|code|entry entry' k k' _ IH|c k k' _ IH|c k k' _ IH];
    simpl; intros evs Hr.
  - by exists evs.
  - by exists evs.
  - by exists evs.
  - destruct Hr as (r & evs1 & -> & Hr).
    destruct (IH r tt _ Hr) as (evs' & Hq & Heq).
    exists (Did (Console entry') VUnit :: evs'). split; [by exists tt, evs'|]. done.
  - destruct Hr as (r & evs1 & -> & Hr).
    destruct (IH r _ Hr) as (evs' & Hq & Heq).
    exists (Did c (sync_value c r) :: evs'). split; [by exists r, evs'|].
    destruct c; simpl; by rewrite ?Heq.
  - destruct Hr as (r & evs1 & -> & Hr).
    destruct (IH r _ Hr) as (evs' & Hq & Heq).
    exists (Awaited c (async_value c r) :: evs'). split; [by exists r, evs'|].
    simpl. by rewrite Heq.
Qed.

Lemma performBuy_same_calls C w1 w2 amount :
  same_calls (performBuy C w1 amount) (performBuy C w2 amount).
Proof.
  unfold performBuy, call. cbn [bind]. apply same_Do. intros [sdk|]; [|constructor].
  apply same_calls_try_catch; [|intros e; unfold console, call; apply same_Log; intros [] []; constructor].
  unfold performBuy_try, console, call, await, unwrap. simpl.
  repeat first
    [ apply same_calls_refl
    | match goal with
      | |- same_calls (bind _ _) (bind _ _) => apply same_calls_bind
      | |- same_calls (match ?x with _ => _ end) (match ?x with _ => _ end) => destruct x
      | |- same_calls (if ?x then _ else _) (if ?x then _ else _) => destruct x
      end
    | constructor
    | progress intros
    | progress simpl ].
Qed.

(** X10. The wallet passed to [performBuy] only shows in the lines it
    logs: whatever a call does for one wallet, a call for any other
    wallet does with the same amount, call for call, on the same results
    and to the same end.  In particular no key pair is derived: every
    call goes through the global handle. *)
Theorem performBuy_ignores_wallet C w1 w2 amount evs o :
  runs (performBuy C w1 amount) evs o ->
  (exists evs', runs (performBuy C w2 amount) evs' o /\ sdk_calls evs' = sdk_calls evs) /\
  (forall secret v, ~ In (Did (KeypairFromSecretKey secret) v) evs).
Proof.
  intros Hrun. split.
  - eapply same_calls_runs; [apply performBuy_same_calls|done].
  - intros secret v Hin.
    apply runs_performBuy in Hrun
      as [[-> ->]|(sdk & evs' & -> & [[-> Hrun]|(error & -> & Hrun)])].
    + in_inv Hin.
    + destruct Hin as [[=]|Hin]. performBuy_try_cases Hrun.
      all: try (apply runs_log_txs in Hrun as [_ ->]).
      all: in_inv Hin.
    + destruct Hin as [[=]|Hin]. apply in_app_or in Hin as [Hin|Hin]; [|in_inv Hin].
      performBuy_try_cases Hrun.
      all: try (apply runs_log_txs in Hrun as [[=] _]).
      all: in_inv Hin.
Qed.

(** A buy of 0.5 SOL in the sample world, for one wallet and another. *)
Lemma performBuy_ignores_wallet_witness :
  let evs := fst (play Sample.fair 0
                    (performBuy Sample.token_mint Sample.alice (Num.dec 1 2)) []) in
  (exists evs',
     runs (performBuy Sample.token_mint Sample.bob (Num.dec 1 2)) evs'
          (snd (play Sample.fair 0
                  (performBuy Sample.token_mint Sample.alice (Num.dec 1 2)) [])) /\
     sdk_calls evs' = sdk_calls evs) /\
  (forall secret v, ~ In (Did (KeypairFromSecretKey secret) v) evs).
Proof.
  intros evs.
  exact (performBuy_ignores_wallet Sample.token_mint Sample.alice Sample.bob (Num.dec 1 2)
           evs _ (play_runs _ _ _ _)).
Defined.

(** ** Sums and differences of numbers, in order *)

Module OrderFacts.
Import Num FloatFacts.

Lemma bounded_spec m e :
  bounded prec emax m e = true <->
  Z.max (Zpos (digits2_pos m) + e - 53) emin = e /\ e <= emax - prec.
Proof.
  unfold bounded, canonical_mantissa. rewrite andb_true_iff, fexp_eq.
  rewrite Z.eqb_eq, Z.leb_le. done.
Qed.

Lemma digits_mono p q : Zpos p <= Zpos q -> Zpos (digits2_pos p) <= Zpos (digits2_pos q).
Proof.
  intros Hpq. pose proof (digits_bounds p) as [Hlo _]. pose proof (digits_bounds q) as [_ Hhi].
  destruct (Z.le_gt_cases (Zpos (digits2_pos p)) (Zpos (digits2_pos q))) as [|Hgt]; [done|].
  assert (2 ^ Zpos (digits2_pos q) <= 2 ^ (Zpos (digits2_pos p) - 1))
    by (apply Z.pow_le_mono_r; lia).
  lia.
Qed.

(** The mantissa of a number, aligned at a lower exponent. *)
Lemma aligned m e ez :
  ez <= e -> Zpos (fst (shl_align m e ez)) = Zpos m * 2 ^ (e - ez).
Proof.
  intros He. rewrite shl_align_spec. destruct (Z.ltb_spec ez e) as [Hlt|Hge]; cbn [fst].
  - by rewrite iter_xO, Z2Pos.id by lia.
  - replace (e - ez) with 0 by lia. lia.
Qed.

(** A positive mantissa at an exponent, rounded: the mantissa [R] of the
    result, at the exponent [F] of its binade. *)
Lemma binary_round_pos M ez :
  emin <= ez ->
  let F := Z.max (Zpos (digits2_pos M) + ez - 53) emin in
  exists R,
    binary_round prec emax false M ez = canon false R F /\
    0 < R <= 2 ^ 53 /\
    (F <= ez -> R = Zpos M * 2 ^ (ez - F)) /\
    (ez < F ->
     Zpos M / 2 ^ (F - ez) <= R <= Zpos M / 2 ^ (F - ez) + 1 /\
     (Zpos M mod 2 ^ (F - ez) = 0 -> R = Zpos M / 2 ^ (F - ez))).
Proof.
  intros He F. unfold binary_round. rewrite shl_align_spec.
  pose proof (digits_bounds M) as [Hlo Hhi].
  set (d := Zpos (digits2_pos M)) in *.
  assert (0 < d) as Hd by (subst d; lia).
  rewrite fexp_eq. fold F.
  destruct (Z.ltb_spec F ez) as [Hlt|Hge]; rewrite binary_round_aux_spec.
  - set (mz := Pos.iter xO M (Z.to_pos (ez - F))).
    assert (Zpos mz = Zpos M * 2 ^ (ez - F)) as Hmz
      by (subst mz; by rewrite iter_xO, Z2Pos.id by lia).
    assert (Zpos (digits2_pos mz) = d + (ez - F)) as -> by (apply digits_shift; [lia|done]).
    rewrite fexp_eq. replace (d + (ez - F) + F - 53) with (d + ez - 53) by lia. fold F.
    replace (Z.max F F) with F by lia. replace (F - F) with 0 by lia.
    unfold rnd. cbn [Z.leb Z.compare]. exists (Zpos mz). split; [done|].
    split; [|split; [by rewrite Hmz|lia]].
    split; [lia|]. rewrite Hmz.
    assert (Zpos M * 2 ^ (ez - F) < 2 ^ d * 2 ^ (ez - F)).
    { apply Z.mul_lt_mono_pos_r; [apply Z.pow_pos_nonneg; lia|done]. }
    rewrite <- Z.pow_add_r in H by lia.
    assert (2 ^ (d + (ez - F)) <= 2 ^ 53) by (apply Z.pow_le_mono_r; lia). lia.
  - fold d. rewrite fexp_eq. fold F. replace (Z.max ez F) with F by lia.
    destruct (Z.eq_dec (F - ez) 0) as [Hk0|Hk0].
    + rewrite Hk0. unfold rnd. cbn [Z.leb Z.compare]. exists (Zpos M). split; [done|].
      replace (ez - F) with 0 by lia. rewrite Z.mul_1_r.
      split; [|split; [done|lia]]. split; [lia|].
      assert (2 ^ d <= 2 ^ 53) by (apply Z.pow_le_mono_r; lia). lia.
    + assert (F = d + ez - 53) as HF by lia.
      set (k := F - ez) in *. assert (0 < k) by lia.
      pose proof (rnd_bounds (Zpos M) k ltac:(lia) ltac:(lia)) as ([Hr1 Hr2] & _ & Hex).
      exists (rnd (Zpos M) k). split; [done|].
      assert (0 < 2 ^ k) by (apply Z.pow_pos_nonneg; lia).
      assert (2 ^ 52 <= Zpos M / 2 ^ k) as Hq.
      { apply Z.div_le_lower_bound; [done|].
        rewrite Z.mul_comm, <- Z.pow_add_r by lia.
        replace (52 + k) with (d - 1) by lia. done. }
      assert (Zpos M / 2 ^ k < 2 ^ 53) as Hq'.
      { apply Z.div_lt_upper_bound; [done|].
        rewrite <- Z.pow_add_r by lia. replace (k + 53) with d by lia. done. }
      split; [lia|]. split; [lia|]. intros _. split; [lia|done].
Qed.

(** A number with a positive mantissa [R] at the exponent [F] is not
    below a number of a lower binade, or of the same with a mantissa
    that is not above. *)
Lemma leb_canon my ey R F :
  0 < R <= 2 ^ 53 -> ey <= F -> (F = ey -> Zpos my <= R) ->
  leb (S754_finite false my ey) (canon false R F) = true.
Proof.
  intros HR HF Hm. apply NumFacts.leb_rank. unfold canon.
  destruct (Z.eqb_spec R 0); [lia|].
  destruct (Z.eqb_spec R (2 ^ 53)) as [->|HR53].
  - destruct (_ <=? _); simpl; repeat split; try done; lia.
  - destruct (_ <=? _); simpl; repeat split; try done; [|lia].
    rewrite Z2Pos.id by lia. lia.
Qed.

(** Adding a positive number to a number gives no less. *)
Lemma add_ge_r mx ex my ey :
  emin <= ex -> bounded prec emax my ey = true ->
  leb (S754_finite false my ey) (add (S754_finite false mx ex) (S754_finite false my ey)) = true.
Proof.
  intros Hex [Hey Hmax]%bounded_spec. unfold add, SFadd.
  set (dy := Zpos (digits2_pos my)) in *.
  assert (emin <= ey) as Hey' by lia.
  set (ez := Z.min ex ey). rewrite !aligned by lia. cbn [cond_Zopp].
  assert (0 < 2 ^ (ex - ez)) by (apply Z.pow_pos_nonneg; lia).
  assert (0 < 2 ^ (ey - ez)) as Hpy by (apply Z.pow_pos_nonneg; lia).
  destruct (Zpos mx * 2 ^ (ex - ez) + Zpos my * 2 ^ (ey - ez)) as [|M|M] eqn:HM; [lia| |lia].
  unfold binary_normalize.
  destruct (binary_round_pos M ez ltac:(lia)) as (R & -> & HR & Hle & Hgt).
  set (F := Z.max (Zpos (digits2_pos M) + ez - 53) emin) in *.
  assert (dy + (ey - ez) <= Zpos (digits2_pos M)) as Hd.
  { pose proof (digits_shift my (ey - ez) (Z.to_pos (Zpos my * 2 ^ (ey - ez))) ltac:(lia)
                  ltac:(rewrite Z2Pos.id; lia)) as Hs.
    fold dy in Hs. rewrite <- Hs. apply digits_mono. rewrite Z2Pos.id by lia. lia. }
  apply leb_canon; [done|lia|]. intros HF.
  destruct (Z.le_gt_cases F ez) as [Hc|Hc].
  - rewrite (Hle Hc). replace (ez - F) with 0 by lia. replace (ey - ez) with 0 in HM by lia. lia.
  - destruct (Hgt Hc) as [[Hlo _] _].
    assert (Zpos my <= Zpos M / 2 ^ (F - ez)); [|lia].
    apply Z.div_le_lower_bound; [apply Z.pow_pos_nonneg; lia|].
    rewrite HF, Z.mul_comm. lia.
Qed.

(** The difference of two positive numbers in order is [+0] or positive,
    and finite. *)
Lemma sub_nonneg mx ex mn en :
  bounded prec emax mx ex = true -> bounded prec emax mn en = true ->
  leb (S754_finite false mn en) (S754_finite false mx ex) = true ->
  sub (S754_finite false mx ex) (S754_finite false mn en) = S754_zero false \/
  exists m e, sub (S754_finite false mx ex) (S754_finite false mn en) = S754_finite false m e.
Proof.
  intros [Hex Hxmax]%bounded_spec [Hen Hnmax]%bounded_spec Hleb.
  apply (proj1 (NumFacts.leb_rank _ _)) in Hleb as (_ & _ & Hrank). simpl in Hrank.
  pose proof (digits_bounds mx) as [Hxlo Hxhi]. pose proof (digits_bounds mn) as [Hnlo Hnhi].
  set (dx := Zpos (digits2_pos mx)) in *. set (dn := Zpos (digits2_pos mn)) in *.
  assert (0 < dx /\ 0 < dn) as [Hdx Hdn] by (subst dx dn; lia).
  assert (2 ^ dx <= 2 ^ 53) as Hx53 by (apply Z.pow_le_mono_r; lia).
  assert (2 ^ dn <= 2 ^ 53) as Hn53 by (apply Z.pow_le_mono_r; lia).
  unfold sub, SFsub. set (ez := Z.min ex en). rewrite !aligned by lia. cbn [cond_Zopp].
  assert (0 < 2 ^ (ex - ez)) by (apply Z.pow_pos_nonneg; lia).
  assert (0 < 2 ^ (en - ez)) by (apply Z.pow_pos_nonneg; lia).
  assert (0 <= Zpos mx * 2 ^ (ex - ez) - Zpos mn * 2 ^ (en - ez)) as Hdiff.
  { destruct Hrank as [?|[_ [Hlt|[Heq Hm]]]]; [lia| |].
    - replace (en - ez) with 0 by lia. replace ez with en by lia.
      assert (dx = 53) as Hd53 by lia. rewrite Hd53 in Hxlo.
      assert (2 ^ 1 <= 2 ^ (ex - en)) by (apply Z.pow_le_mono_r; lia).
      change (2 ^ (53 - 1)) with 4503599627370496 in Hxlo.
      change (2 ^ 53) with 9007199254740992 in Hn53. nia.
    - replace (ex - ez) with 0 by lia. replace (en - ez) with 0 by lia. simpl in Hm. lia. }
  destruct (Zpos mx * 2 ^ (ex - ez) - Zpos mn * 2 ^ (en - ez)) as [|M|M] eqn:HM; [by left| |lia].
  right. unfold binary_normalize.
  destruct (binary_round_pos M ez ltac:(lia)) as (R & -> & HR & Hle & Hgt).
  set (F := Z.max (Zpos (digits2_pos M) + ez - 53) emin) in *.
  assert (Zpos (digits2_pos M) <= dx + (ex - ez)) as Hd.
  { pose proof (digits_shift mx (ex - ez) (Z.to_pos (Zpos mx * 2 ^ (ex - ez))) ltac:(lia)
                  ltac:(rewrite Z2Pos.id; lia)) as Hs.
    fold dx in Hs. rewrite <- Hs. apply digits_mono. rewrite Z2Pos.id by lia. lia. }
  assert (F <= ex) as HF by lia.
  assert (R < 2 ^ 53 \/ F < ex) as Hcarry.
  { destruct (Z.eq_dec F ex) as [HFx|]; [left|lia].
    destruct (Z.le_gt_cases F ez) as [Hc|Hc].
    - rewrite (Hle Hc). replace (ez - F) with 0 by lia.
      replace (ex - ez) with 0 in HM by lia. lia.
    - destruct (Hgt Hc) as [[_ Hhi] _].
      assert (Zpos M / 2 ^ (F - ez) < Zpos mx); [|lia].
      apply Z.div_lt_upper_bound; [apply Z.pow_pos_nonneg; lia|].
      rewrite HFx, Z.mul_comm. lia. }
  unfold canon. destruct (Z.eqb_spec R 0); [lia|].
  destruct (Z.eqb_spec R (2 ^ 53)).
  - destruct (Z.leb_spec (F + 1) (emax - prec)); [eauto|lia].
  - destruct (Z.leb_spec F (emax - prec)); [eauto|lia].
Qed.

(** The product of two numbers that are not negative is not negative. *)
Lemma mul_nonneg mx ex y :
  y = S754_zero false \/ (exists m e, y = S754_finite false m e) ->
  (exists s, mul (S754_finite false mx ex) y = S754_zero s) \/
  mul (S754_finite false mx ex) y = S754_infinity false \/
  (exists m e, mul (S754_finite false mx ex) y = S754_finite false m e /\ emin <= e).
Proof.
  intros [->|(my & ey & ->)]; unfold mul; cbn [SFmul xorb]; [left; eauto|].
  destruct (binary_round_aux prec emax false (Zpos (mx * my)) (ex + ey) loc_Exact)
    as [s|s| |s m e] eqn:E.
  - left. eauto.
  - right. left. rewrite binary_round_aux_spec in E. unfold canon in E.
    repeat match type of E with (if ?b then _ else _) = _ => destruct b end; congruence.
  - pose proof (RoundFacts.binary_round_aux_not_nan false (Zpos (mx * my)) (ex + ey) loc_Exact
                  ltac:(lia)) as Hn. by rewrite E in Hn.
  - right. right. exists m, e. split; [|by eapply binary_round_aux_exponent].
    rewrite binary_round_aux_spec in E. unfold canon in E.
    repeat match type of E with (if ?b then _ else _) = _ => destruct b end; congruence.
Qed.

(** A valid positive number below infinity is a finite one, bounded. *)
Lemma positive_finite x :
  valid_binary prec emax x = true -> ltb zero x = true ->
  ltb x (S754_infinity false) = true ->
  exists m e, x = S754_finite false m e /\ bounded prec emax m e = true.
Proof. destruct x as [[]|[]| |[] m e]; try done. intros Hv _ _. by exists m, e. Qed.

(** The amount [r * (MAX - MIN) + MIN] drawn with a random number [r] in
    [0, 1) is at least [MIN], for [0 < MIN <= MAX], finite. *)
Lemma drawn_ge_min MIN MAX r :
  valid_binary prec emax MIN = true -> valid_binary prec emax MAX = true ->
  ltb zero MIN = true -> leb MIN MAX = true -> ltb MAX (S754_infinity false) = true ->
  unit_interval r ->
  leb MIN (add (mul r (sub MAX MIN)) MIN) = true.
Proof.
  intros Hvmin Hvmax Hmin Hle Hfin Hr.
  destruct (positive_finite MIN Hvmin Hmin) as (mn & en & -> & Hbn).
  { destruct MAX as [[]|[]| |[] m e], MIN as [[]|[]| |[] m' e']; done. }
  destruct (positive_finite MAX Hvmax) as (mx & ex & -> & Hbx); [|done|].
  { destruct MAX as [[]|[]| |[] m e]; done. }
  assert (leb (S754_finite false mn en) (S754_finite false mn en) = true) as Hrefl
    by by apply NumFacts.leb_refl.
  pose proof (sub_nonneg mx ex mn en Hbx Hbn Hle) as Hd.
  destruct (unit_interval_cases r Hr) as [[s ->]|(mr & er & -> & _)].
  - destruct Hd as [->|(m & e & ->)]; unfold mul, add; cbn [SFmul SFadd]; done.
  - destruct (mul_nonneg mr er _ Hd) as [[s ->]|[->|(m & e & -> & He)]].
    + unfold add. cbn [SFadd]. done.
    + unfold add. cbn [SFadd]. done.
    + by apply add_ge_r.
Qed.

End OrderFacts.


(** ** Who is skipped *)

(** X11. With amounts [0 < MIN <= MAX], finite, and random numbers in
    [0, 1), the amount drawn for a wallet is at least the minimum, so a
    wallet is only skipped because it cannot afford the minimum: its
    balance, read in this pass, less the fee buffer is below it. *)
Theorem runAutoBuy_skips_only_unaffordable
    WALLETS MIN_DELAY MAX_DELAY MIN_BUY MAX_BUY evs o pk min_logged v :
  valid_binary Num.prec Num.emax MIN_BUY = true ->
  valid_binary Num.prec Num.emax MAX_BUY = true ->
  (Num.zero < MIN_BUY)%num -> (MIN_BUY <= MAX_BUY)%num ->
  (MAX_BUY < S754_infinity false)%num ->
  runs (runAutoBuy WALLETS MIN_DELAY MAX_DELAY MIN_BUY MAX_BUY) evs o ->
  (forall r, In (Did Math_random (VNumber r)) evs -> Num.unit_interval r) ->
  In (Did (Console (WarnSkipping pk min_logged)) v) evs ->
  exists w balance,
    In w WALLETS /\ pk = publicKey w /\
    In (Awaited (GetBalance pk) (VNumber balance)) evs /\
    (balance / LAMPORTS_PER_SOL - FEE_BUFFER_SOL < MIN_BUY)%num.
Proof.
  unfold num_lt, num_le. intros Hvmin Hvmax Hmin Hle Hfin Hrun Hrandom Hin.
  unfold runAutoBuy, console, call in Hrun. cbn [bind runs] in Hrun.
  destruct Hrun as ([] & evs' & -> & Hrun).
  destruct Hin as [[=]|Hin].
  destruct (runs_for_of_In _ _ _ _ _ Hrun Hin) as (x & ch & o' & Hx & Hw & Hev & Hsub).
  assert (forall r, In (Did Math_random (VNumber r)) ch -> Num.unit_interval r) as Hrandom'
    by (intros r Hr; apply Hrandom; right; by apply Hsub).
  unfold capBuyAmount, await in Hw. run_inv Hw; subst.
  all: in_inv Hev.
  all: injection Hev as ? ? ?; subst.
  all: exists x; eexists; split; [done|]; split; [done|];
         split; [right; apply Hsub; simpl; eauto|].
  all: try done.
  exfalso.
  match goal with
  | H : Num.ltb (Num.Math_min ?d ?a) ?m = true, H' : Num.ltb ?a ?m = false |- _ =>
      destruct (NumFacts.ltb_not_nan _ _ H) as [Hnan Hm];
      destruct (Math_min_not_nan d a Hnan) as [_ Ha];
      assert (Num.leb m (Num.Math_min d a) = true) as Hglb;
        [apply NumFacts.Math_min_glb;
           [apply OrderFacts.drawn_ge_min; try done; apply Hrandom'; simpl; eauto
           |by apply NumFacts.not_ltb_leb]
        |apply NumFacts.leb_not_ltb in Hglb; congruence]
  end.
Qed.

(** A wallet that holds nothing is skipped, with amounts of 0.1 to 3 SOL. *)
Lemma runAutoBuy_skips_only_unaffordable_witness :
  exists w balance,
    In w [Sample.alice] /\ "A1ice" = publicKey w /\
    In (Awaited (GetBalance "A1ice") (VNumber balance))
       (fst (play Sample.broke 0
               (runAutoBuy [Sample.alice] (Num.of_Z 100) (Num.of_Z 5000)
                           (Num.dec 1 10) (Num.of_Z 3)) [])) /\
    (balance / LAMPORTS_PER_SOL - FEE_BUFFER_SOL < Num.dec 1 10)%num.
Proof.
  apply (runAutoBuy_skips_only_unaffordable [Sample.alice] (Num.of_Z 100) (Num.of_Z 5000)
           (Num.dec 1 10) (Num.of_Z 3)
           (fst (play Sample.broke 0
                   (runAutoBuy [Sample.alice] (Num.of_Z 100) (Num.of_Z 5000)
                               (Num.dec 1 10) (Num.of_Z 3)) []))
           (snd (play Sample.broke 0
                   (runAutoBuy [Sample.alice] (Num.of_Z 100) (Num.of_Z 5000)
                               (Num.dec 1 10) (Num.of_Z 3)) []))
           "A1ice" (Num.dec 1 10) VUnit).
  - vm_compute. reflexivity.
  - vm_compute. reflexivity.
  - vm_compute. reflexivity.
  - vm_compute. reflexivity.
  - vm_compute. reflexivity.
  - apply play_runs.
  - intros r Hin. vm_compute in Hin.
    assert (r = Num.dec 1 2) as ->.
    { repeat (destruct Hin as [Hin|Hin];
              [try discriminate Hin; injection Hin as <-; vm_compute; reflexivity|]).
      destruct Hin. }
    split; [vm_compute; reflexivity|split; vm_compute; reflexivity].
  - vm_compute. tauto.
Defined.

(** ** One timer for each wallet, at most *)

Lemma sets_at_most_mono (n m : nat) {R} (p : Proc R) :
  (n <= m)%nat -> sets_at_most n p -> sets_at_most m p.
Proof.
  revert n m. induction p as [r|e|code|c k IH|c k IH]; simpl; intros n m Hnm Hp; auto.
  - destruct Hp as [Hc Hk]. split; [lia|]. intros r. apply (IH r (n - timer_cost c)%nat); [lia|done].
  - intros r. by apply (IH r n).
Qed.

Lemma sets_at_most_bind (n m : nat) {A B} (p : Proc A) (f : A -> Proc B) :
  sets_at_most n p -> (forall a, sets_at_most m (f a)) -> sets_at_most (n + m) (bind p f).
Proof.
  revert n. induction p as [r|e|code|c k IH|c k IH]; simpl; intros n Hp Hf; auto.
  - apply (sets_at_most_mono m); [lia|done].
  - destruct Hp as [Hc Hk]. split; [lia|]. intros r.
    replace (n + m - timer_cost c)%nat with (n - timer_cost c + m)%nat by lia. by apply IH.
Qed.

Lemma sets_at_most_try_catch (n m : nat) {A} (p : Proc A) (h : Err -> Proc A) :
  sets_at_most n p -> (forall e, sets_at_most m (h e)) ->
  sets_at_most (n + m) (try_catch p h).
Proof.
  revert n. induction p as [r|e|code|c k IH|c k IH]; simpl; intros n Hp Hh; auto.
  - apply (sets_at_most_mono m); [lia|done].
  - destruct Hp as [Hc Hk]. split; [lia|]. intros r.
    replace (n + m - timer_cost c)%nat with (n - timer_cost c + m)%nat by lia. by apply IH.
Qed.

Lemma sets_at_most_for_of {A} (l : list A) (body : A -> Proc unit) :
  (forall x, sets_at_most 1 (body x)) -> sets_at_most (length l) (for_of l body).
Proof.
  intros Hb. induction l as [|x l IH]; simpl; [done|].
  by apply (sets_at_most_bind 1 (length l)).
Qed.

(** A function that sets no timer. *)
Lemma shape_sets_none (P : SyncCall -> Prop) (T E : Prop) {R} (p : Proc R) :
  (forall c, P c -> timer_cost c = 0%nat) -> shape P T E p -> sets_at_most 0 p.
Proof.
  intros HP. induction p as [r|e|code|c k IH|c k IH]; simpl; auto.
  intros [Hc Hk]. rewrite (HP c Hc). split; [lia|]. intros r. by apply IH.
Qed.

Lemma performBuy_sets_none C wallet amount : sets_at_most 0 (performBuy C wallet amount).
Proof.
  unfold performBuy, call. cbn [bind sets_at_most timer_cost]. split; [lia|].
  intros [sdk|]; [|done]. cbn [Nat.sub].
  apply (shape_sets_none swap_call False False); [|apply performBuy_shape].
  by intros [].
Qed.

Lemma main_sets_at_most WALLETS MIN_DELAY MAX_DELAY MIN_BUY MAX_BUY :
  sets_at_most (length WALLETS) (main WALLETS MIN_DELAY MAX_DELAY MIN_BUY MAX_BUY).
Proof.
  assert (forall ws, sets_at_most 0 (displayWalletBalances ws)) as Hdisplay.
  { intros ws. unfold displayWalletBalances, console, call, await.
    cbn [bind sets_at_most timer_cost]. split; [lia|]. intros _.
    apply (sets_at_most_bind 0 0).
    - apply (shape_sets_none (fun c => timer_cost c = 0%nat) True True); [done|].
      apply shape_for_of. intros w. simpl. intros [|]; simpl; done.
    - intros _. simpl. split; [lia|done]. }
  assert (sets_at_most 0 (initRaydium WALLETS)) as Hinit.
  { apply (shape_sets_none (fun c => timer_cost c = 0%nat) True True); [done|].
    unfold initRaydium, console, call, await, unwrap.
    destruct (length WALLETS =? 0)%nat; [done|]. destruct (WALLETS !! 0%nat); [|done].
    simpl. split; [done|]. intros [|]; simpl; [done|]. split; [done|].
    intros _ [|]; simpl; done. }
  assert (sets_at_most (length WALLETS)
            (runAutoBuy WALLETS MIN_DELAY MAX_DELAY MIN_BUY MAX_BUY)) as Hauto.
  { unfold runAutoBuy, console, call. cbn [bind sets_at_most timer_cost]. split; [lia|].
    intros _. rewrite Nat.sub_0_r. apply sets_at_most_for_of. intros w.
    unfold capBuyAmount, await. simpl. split; [lia|]. intros r [|]; simpl; [done|].
    destruct (_ <? _)%num; simpl; destruct (_ <? _)%num; simpl; repeat split; lia. }
  assert (forall entry, sets_at_most 0 (console entry)) as Hlog
    by (intros entry; unfold console, call; simpl; split; [lia|done]).
  unfold main. apply (sets_at_most_mono (length WALLETS + 0)); [lia|].
  apply (sets_at_most_try_catch (length WALLETS) 0); [|intros e; simpl; split; [lia|done]].
  apply (sets_at_most_bind 0 (length WALLETS)); [done|]. intros _.
  apply (sets_at_most_bind 0 (length WALLETS)); [done|]. intros _.
  apply (sets_at_most_bind 0 (length WALLETS)); [done|]. intros _.
  apply (sets_at_most_bind 0 (length WALLETS)); [done|]. intros _.
  apply (sets_at_most_bind 0 (length WALLETS)); [done|]. intros _.
  apply (sets_at_most_mono (length WALLETS + 0)); [lia|].
  apply (sets_at_most_bind _ 0); [done|]. intros _.
  apply (sets_at_most_bind 0 0); [done|]. intros _. apply Hdisplay.
Qed.

Lemma timers_set_app evs1 evs2 :
  timers_set (evs1 ++ evs2) = (timers_set evs1 + timers_set evs2)%nat.
Proof. induction evs1 as [|[c v|c v|c|cb] evs1 IH]; simpl; lia. Qed.

Lemma timers_fired_app evs1 evs2 :
  timers_fired (evs1 ++ evs2) = (timers_fired evs1 + timers_fired evs2)%nat.
Proof. induction evs1 as [|[c v|c v|c|cb] evs1 IH]; simpl; lia. Qed.

Lemma sum_list_delete (bs : list nat) i b :
  bs !! i = Some b -> (sum_list (delete i bs) + b = sum_list bs)%nat.
Proof.
  revert i. induction bs as [|x bs IH]; intros [|i] Hb; simpl in *; try done.
  - injection Hb as ->. lia.
  - specialize (IH i Hb). lia.
Qed.

(** A function that runs within its budget keeps the invariant. *)
Lemma run_sync_budget env (limit : nat) (p : Proc unit) rt (b : nat) (bs : list nat) :
  sets_at_most b p ->
  (timers_fired (trace rt) + length (timers rt) = timers_set (trace rt))%nat ->
  Forall2 (fun t b => forall r, sets_at_most b (resume t r)) (inflight rt) bs ->
  (timers_set (trace rt) + b + sum_list bs <= limit)%nat ->
  budget_inv limit (run_sync env p rt).
Proof.
  revert rt b. induction p as [r|e|code|c k IH|c k IH]; simpl; intros rt b Hs Hp Hf Hl.
  - constructor; [done|]. exists bs. split; [done|lia].
  - constructor; simpl; [done|]. exists bs. split; [done|lia].
  - constructor; simpl; [done|]. exists bs. split; [done|lia].
  - destruct Hs as [Hc Hk]. apply (IH _ _ (b - timer_cost c)%nat); [done| | |].
    + cbn [record trace timers]. rewrite timers_set_app, timers_fired_app.
      replace (trace (effect c rt)) with (trace rt) by by destruct c.
      simpl. destruct c; simpl; rewrite ?length_app; simpl; lia.
    + cbn [record inflight]. by replace (inflight (effect c rt)) with (inflight rt) by by destruct c.
    + cbn [record trace]. rewrite timers_set_app.
      replace (trace (effect c rt)) with (trace rt) by by destruct c. simpl. lia.
  - constructor; simpl.
    + rewrite timers_set_app, timers_fired_app. simpl. lia.
    + exists (bs ++ [b]). split.
      * apply Forall2_app; [done|]. by constructor.
      * rewrite timers_set_app, sum_list_with_app. simpl. lia.
Qed.

Section Budget.

Variable CONTRACT_ADDRESS : PublicKey.
Variable WALLETS : list Wallet.
Variable MIN_DELAY MAX_DELAY : number.
Variable MIN_BUY_AMOUNT_SOL MAX_BUY_AMOUNT_SOL : number.
Variable env : Env.

Lemma step_budget limit ch rt rt' :
  budget_inv limit rt -> step CONTRACT_ADDRESS env ch rt = Some rt' -> budget_inv limit rt'.
Proof.
  intros [Hp (bs & Hf & Hl)]. unfold step. destruct (exit_code rt); [done|].
  destruct ch as [dt|i|i].
  - destruct (0 <? dt); [|done]. intros [= <-]. constructor; simpl; eauto.
  - destruct (timers rt !! i) as [t|] eqn:Ht; [|done].
    destruct (due t <=? now rt); [|done]. intros [= <-].
    destruct (callback t) as [w a]. cbn [run_callback].
    apply (run_sync_budget _ _ _ _ 0%nat bs); simpl.
    + apply performBuy_sets_none.
    + rewrite timers_set_app, timers_fired_app, length_delete by eauto. simpl.
      apply lookup_lt_Some in Ht. lia.
    + done.
    + rewrite timers_set_app. simpl. lia.
  - destruct (inflight rt !! i) as [t|] eqn:Ht; [|done]. intros [= <-].
    destruct (Forall2_lookup_l _ _ _ _ _ Hf Ht) as (b & Hb & Hbudget).
    apply (run_sync_budget _ _ _ _ b (delete i bs)); simpl.
    + apply Hbudget.
    + rewrite timers_set_app, timers_fired_app. simpl. lia.
    + by apply Forall2_delete.
    + rewrite timers_set_app. simpl. pose proof (sum_list_delete bs i b Hb). lia.
Qed.

Lemma run_budget limit chs rt rt' :
  budget_inv limit rt -> run CONTRACT_ADDRESS env chs rt = Some rt' -> budget_inv limit rt'.
Proof.
  revert rt. induction chs as [|ch chs IH]; simpl; intros rt Hinv.
  - by intros [= <-].
  - destruct (step CONTRACT_ADDRESS env ch rt) as [rt1|] eqn:Hstep; [|done].
    apply IH. by eapply step_budget.
Qed.

Lemma boot_budget :
  budget_inv (length WALLETS)
    (boot WALLETS MIN_DELAY MAX_DELAY MIN_BUY_AMOUNT_SOL MAX_BUY_AMOUNT_SOL env).
Proof.
  apply (run_sync_budget _ _ _ _ (length WALLETS) []); simpl; [|done|done|lia].
  apply main_sets_at_most.
Qed.

End Budget.

(** X12. In a session, whatever the world answers and however the
    event loop schedules, the buys started and the buys still pending
    are together at most as many as the wallets configured, and each
    timer set is either pending or has started its buy. *)
Theorem session_buys_bounded
    CONTRACT_ADDRESS WALLETS MIN_DELAY MAX_DELAY MIN_BUY MAX_BUY env chs rt :
  run CONTRACT_ADDRESS env chs (boot WALLETS MIN_DELAY MAX_DELAY MIN_BUY MAX_BUY env) = Some rt ->
  (timers_fired (trace rt) + length (timers rt) <= length WALLETS)%nat /\
  (timers_fired (trace rt) + length (timers rt) = timers_set (trace rt))%nat.
Proof.
  intros Hrun.
  destruct (run_budget CONTRACT_ADDRESS env (length WALLETS) chs _ rt
              (boot_budget WALLETS MIN_DELAY MAX_DELAY MIN_BUY MAX_BUY env) Hrun)
    as [Hp (bs & _ & Hl)].
  split; [lia|done].
Qed.

(** A session of two wallets in the sample world, up to the first buy. *)
Lemma session_buys_bounded_witness :
  exists rt,
    run Sample.token_mint Sample.fair
        (repeat (Settle 0%nat) 7 ++ [Tick 3000; Fire 0%nat] ++ repeat (Settle 0%nat) 6)
        (boot [Sample.alice; Sample.bob] (Num.of_Z 100) (Num.of_Z 5000)
              (Num.dec 1 10) (Num.of_Z 3) Sample.fair)
    = Some rt /\
    (timers_fired (trace rt) + length (timers rt) <= 2)%nat /\
    (timers_fired (trace rt) + length (timers rt) = timers_set (trace rt))%nat.
Proof.
  assert (exists rt,
    run Sample.token_mint Sample.fair
        (repeat (Settle 0%nat) 7 ++ [Tick 3000; Fire 0%nat] ++ repeat (Settle 0%nat) 6)
        (boot [Sample.alice; Sample.bob] (Num.of_Z 100) (Num.of_Z 5000)
              (Num.dec 1 10) (Num.of_Z 3) Sample.fair)
    = Some rt) as [rt Hrt].
  { vm_compute. eexists. reflexivity. }
  exists rt. split; [exact Hrt|].
  exact (session_buys_bounded _ _ _ _ _ _ _ _ _ Hrt).
Defined.
